(** * czech-translator: a shallow embedding of [main.py] and [read_anki.py]

    The two scripts are modelled as pure functions over the Python data they
    manipulate.  Everything the scripts obtain from their surroundings (the
    remote completion service, the file system, the console, the order in
    which the worker pool finishes its futures) is an explicit argument, so
    that each statement below quantifies over all of its behaviours.

    Exceptions are instances of the [Exception] hierarchy, the ones an
    [except Exception] clause catches.  In [main.py] every [print] is part of
    the model, with the message it prints: the console may refuse a message
    and [print] then raises.  The standard library is modelled at its
    interface: [csv.reader] by the rows it yields, [csv.writer] by the rows
    it is given, the output file by what is done to it and by what closing
    it does to the rows it has buffered, the thread pool by the order of
    completion.  For [read_anki.py] the model is about the rows the
    functions compute and where they are written; its messages are left out. *)

From Stdlib Require Import NArith ZArith String Ascii Permutation Lia.
From stdpp Require Import base list gmap.

Set Default Proof Using "Type".
#[local] Set Warnings "-register-all,-clear-no-such-hyp".

(** ** Python data *)

Module Py.

(** A [str] is a sequence of Unicode code points. *)
Abbreviation pystr := (list N).

(** Literals are written as Rocq strings, which hold UTF-8 bytes; [u] decodes
    them into code points.  It is only used to write constants and examples.
    The decoder reads one byte at a time: [need] continuation bytes are still
    due for the code point collected in [acc]. *)
Definition utf8_step (st : nat * N) (b : N) : pystr * (nat * N) :=
  let '(need, acc) := st in
  if (b <? 128)%N then ([b], (0%nat, 0%N))
  else if (b <? 192)%N then
    let acc' := (acc * 64 + (b - 128))%N in
    match need with
    | 0%nat => ([], (0%nat, 0%N))
    | 1%nat => ([acc'], (0%nat, 0%N))
    | S n => ([], (n, acc'))
    end
  else if (b <? 224)%N then ([], (1%nat, (b - 192)%N))
  else if (b <? 240)%N then ([], (2%nat, (b - 224)%N))
  else ([], (3%nat, (b - 240)%N)).

Fixpoint utf8_decode (st : nat * N) (bs : list N) : pystr :=
  match bs with
  | [] => []
  | b :: bs' =>
      let r := utf8_step st b in r.1 ++ utf8_decode r.2 bs'
  end.

Definition u (s : string) : pystr :=
  utf8_decode (0%nat, 0%N) (map N_of_ascii (list_ascii_of_string s)).
Arguments u s%_string : simpl never.

(** [str.isspace] for one code point: the characters [str.strip()] and
    [str.split()] treat as whitespace. *)
Definition isspace (c : N) : bool :=
  ((9 <=? c) && (c <=? 13) || (28 <=? c) && (c <=? 32)
   || (c =? 133) || (c =? 160) || (c =? 5760)
   || (8192 <=? c) && (c <=? 8202)
   || (c =? 8232) || (c =? 8233) || (c =? 8239) || (c =? 8287)
   || (c =? 12288))%N.

Fixpoint lstrip (s : pystr) : pystr :=
  match s with
  | c :: s' => if isspace c then lstrip s' else s
  | [] => []
  end.

Definition rstrip (s : pystr) : pystr := rev (lstrip (rev s)).

(** [s.strip()] *)
Definition strip (s : pystr) : pystr := rstrip (lstrip s).

(** [s.split()] with no separator: maximal runs of non-whitespace, in order.
    [cur] is the run being read. *)
Fixpoint split_from (cur : pystr) (s : pystr) : list pystr :=
  match s with
  | [] => match cur with [] => [] | _ => [cur] end
  | c :: s' =>
      if isspace c
      then match cur with [] => split_from [] s' | _ => cur :: split_from [] s' end
      else split_from (cur ++ [c]) s'
  end.

Definition split (s : pystr) : list pystr := split_from [] s.

(** A binary64 number is kept abstract: the scripts only ever test it for
    truth and print it. *)
Record pyfloat := { float_is_zero : bool; float_repr : pystr }.

(** The values [json.loads] can produce, which are also the values the
    fields of a result can hold. *)
Inductive pyval :=
| VNone
| VBool (b : bool)
| VInt (z : Z)
| VFloat (f : pyfloat)
| VStr (s : pystr)
| VList (l : list pyval)
| VDict (d : gmap pystr pyval).

Definition type_name (v : pyval) : pystr :=
  match v with
  | VNone => u "NoneType"
  | VBool _ => u "bool"
  | VInt _ => u "int"
  | VFloat _ => u "float"
  | VStr _ => u "str"
  | VList _ => u "list"
  | VDict _ => u "dict"
  end.

(** Truth value of an object, as tested by [and] and [if]. *)
Definition truthy (v : pyval) : bool :=
  match v with
  | VNone => false
  | VBool b => b
  | VInt z => negb (z =? 0)%Z
  | VFloat f => negb (float_is_zero f)
  | VStr s => match s with [] => false | _ => true end
  | VList l => match l with [] => false | _ => true end
  | VDict d => negb (bool_decide (d = ∅))
  end.

Definition is_str (v : pyval) : bool :=
  match v with VStr _ => true | _ => false end.

(** An exception instance of the [Exception] hierarchy: its class name and
    [str(e)]. *)
Record exn := { exn_class : pystr; exn_str : pystr }.

(** A computation that returns or raises. *)
Inductive py (A : Type) :=
| Return (a : A)
| Raise (e : exn).
Arguments Return {A} a.
Arguments Raise {A} e.

Definition bind {A B} (m : py A) (k : A -> py B) : py B :=
  match m with
  | Return a => k a
  | Raise e => Raise e
  end.

(** [try: body  except Exception as e: handler(e)] *)
Definition try_except {A} (body : py A) (handler : exn -> py A) : py A :=
  match body with
  | Return a => Return a
  | Raise e => handler e
  end.

Definition attribute_error (v : pyval) (attr : pystr) : exn :=
  {| exn_class := u "AttributeError";
     exn_str := u "'" ++ type_name v ++ u "' object has no attribute '"
                ++ attr ++ u "'" |}.

(** [obj.get(key, dflt)]: only a dict has the method. *)
Definition get (obj : pyval) (key : pystr) (dflt : pyval) : py pyval :=
  match obj with
  | VDict d => Return (default dflt (d !! key))
  | _ => Raise (attribute_error obj (u "get"))
  end.

(** [str(n)] for an integer: its decimal digits. *)
Fixpoint digits (fuel : nat) (n : N) (acc : pystr) : pystr :=
  match fuel with
  | O => acc
  | S fuel' =>
      let acc' := (48 + n mod 10)%N :: acc in
      if (n / 10 =? 0)%N then acc' else digits fuel' (n / 10)%N acc'
  end.

Definition str_N (n : N) : pystr := digits (S (N.size_nat n)) n [].

Definition str_Z (z : Z) : pystr :=
  match z with
  | Zneg p => 45%N :: str_N (Npos p)
  | _ => str_N (Z.to_N z)
  end.

(** The console: the exception [print(message)] raises, if any (a stream
    that cannot encode the message, a closed stream). *)
Definition console := pystr -> option exn.

(** [print(message)] *)
Definition print (out : console) (message : pystr) : py () :=
  match out message with
  | None => Return ()
  | Some e => Raise e
  end.

(** What the interpreter supplies and the scripts do not define: the Unicode
    lower-case mapping outside ASCII, and [str(v)] for floats, lists and
    dicts. *)
Class Runtime := {
  unicode_lower : N -> pystr;
  str_other : pyval -> pystr
}.

Section WithRuntime.
Context `{Runtime}.

Definition lower_char (c : N) : pystr :=
  if (c <? 128)%N
  then (if (65 <=? c)%N && (c <=? 90)%N then [(c + 32)%N] else [c])
  else unicode_lower c.

(** [s.lower()] (character by character). *)
Definition lower_str (s : pystr) : pystr := concat (map lower_char s).

(** [obj.lower()]: only a str has the method. *)
Definition lower (obj : pyval) : py pystr :=
  match obj with
  | VStr s => Return (lower_str s)
  | _ => Raise (attribute_error obj (u "lower"))
  end.

(** [f"{v}"] *)
Definition format (v : pyval) : pystr :=
  match v with
  | VStr s => s
  | VNone => u "None"
  | VBool true => u "True"
  | VBool false => u "False"
  | VInt z => str_Z z
  | _ => str_other v
  end.
End WithRuntime.

(** A runtime for examples: only ASCII letters have case. *)
Definition ascii_runtime : Runtime :=
  {| unicode_lower := fun c => [c]; str_other := fun _ => u "?" |}.

End Py.

#[global] Instance py_ret : MRet Py.py := @Py.Return.
#[global] Instance py_bind : MBind Py.py := fun A B k m => Py.bind m k.
#[global] Instance py_fmap : FMap Py.py :=
  fun A B f m => Py.bind m (fun a => Py.Return (f a)).

(** ** main.py *)

Module Translator.
Import Py.

(** *** Data *)

(** [TranslationResult]: the dict built by [translate_word].  The type
    annotations of the source are not enforced at run time, so every field
    holds an arbitrary value. *)
Record TranslationResult := {
  word : pyval;
  word_type : pyval;
  gender : pyval;
  translation : pyval;
  example : pyval
}.

(** One line handed to the CSV writer: its cells, in column order. *)
Definition csv_row := list pyval.

(** [fieldnames], as written by [writeheader]. *)
Definition header : csv_row :=
  [VStr (u "word"); VStr (u "word_type"); VStr (u "translation");
   VStr (u "example")].

(** *** Source Reader *)

(** The body of the [for row in reader] loop. *)
Definition add_row (words : list pystr) (row : list pystr) : list pystr :=
  match row with
  | [] => words
  | first :: _ =>
      match strip first with
      | [] => words
      | _ :: _ =>
          if bool_decide (strip first ∈ words) then words
          else words ++ [strip first]
      end
  end.

(** [open_csv path] stands for [open(path)] followed by [csv.reader]: the
    rows read from the file, or the exception raised on the way. *)
Definition read_czech_words (open_csv : pystr -> py (list (list pystr)))
    (input_file : pystr) : py (list pystr) :=
  try_except
    (rows ← open_csv input_file;
     mret (foldl add_row [] rows))
    (fun e => Raise e).

(** *** Item Processor *)

(** Lines 41 to 71: building the client, the request, reading the first
    choice and [json.loads]; it yields the parsed value or raises. *)
Definition service := pystr -> pystr -> py pyval.

Definition error_result (w : pystr) (e : exn) : TranslationResult :=
  {| word := VStr w;
     word_type := VStr (u "error");
     gender := VNone;
     translation := VStr (u "Error: " ++ exn_str e);
     example := VStr [] |}.

(** The messages of [translate_word]. *)
Definition message_translated (w : pystr) : pystr := u "Translated: " ++ w.

Definition message_translate_error (w : pystr) (e : exn) : pystr :=
  u "Error translating word '" ++ w ++ u "': " ++ exn_str e.

Section Processor.
Context `{Runtime}.
Variable out : console.
Variable svc : service.

(** The [try] block of [translate_word]. *)
Definition translate_word_try (w openai_api_key : pystr)
    : py TranslationResult :=
  result ← svc w openai_api_key;
  _ ← print out (message_translated w);
  wt ← get result (u "word_type") (VStr []);
  g ← get result (u "gender") VNone;
  lowered ← lower wt;
  let wt' :=
    if bool_decide (lowered = u "noun") && truthy g
    then VStr (format wt ++ u " (" ++ format g ++ u ")")
    else wt in
  r_word ← get result (u "word") (VStr w);
  r_translation ← get result (u "translation") (VStr []);
  r_example ← get result (u "example") (VStr []);
  mret {| word := r_word;
          word_type := wt';
          gender := g;
          translation := r_translation;
          example := r_example |}.

Definition translate_word (w openai_api_key : pystr)
    : py TranslationResult :=
  try_except (translate_word_try w openai_api_key)
             (fun e =>
                _ ← print out (message_translate_error w e);
                mret (error_result w e)).
End Processor.

(** *** Result Sink and dispatcher *)

(** What happens to the output file, in order. *)
Inductive file_op :=
| Opened (path : pystr)
| Wrote (row : csv_row)
| Closed
| CloseFailed.

(** The rows handed to the writer since the file was last opened for
    writing. *)
Fixpoint handed_over (acc : list csv_row) (t : list file_op) : list csv_row :=
  match t with
  | [] => acc
  | Opened _ :: t' => handed_over [] t'
  | Wrote row :: t' => handed_over (acc ++ [row]) t'
  | Closed :: t' => handed_over acc t'
  | CloseFailed :: t' => handed_over acc t'
  end.

(** The rows that are sure to be in the file.  The file object keeps what it
    is given in its buffer and has to pass it on only when it is flushed or
    closed; the script never flushes, so only closing counts, and a close
    that fails loses what was buffered.  [buffered] are the rows given
    since, [stored] the rows passed on. *)
Fixpoint persisted_from (stored buffered : list csv_row) (t : list file_op)
    : list csv_row :=
  match t with
  | [] => stored
  | Opened _ :: t' => persisted_from [] [] t'
  | Wrote row :: t' => persisted_from stored (buffered ++ [row]) t'
  | Closed :: t' => persisted_from (stored ++ buffered) [] t'
  | CloseFailed :: t' => persisted_from stored [] t'
  end.

Definition persisted (t : list file_op) : list csv_row :=
  persisted_from [] [] t.

(** Statements of [main] act on the output file and may raise; what was
    done to the file before an exception stays done. *)
Definition io (A : Type) := list file_op -> py A * list file_op.

Definition io_ret {A} (a : A) : io A := fun t => (Return a, t).

Definition io_bind {A B} (m : io A) (k : A -> io B) : io B :=
  fun t =>
    match m t with
    | (Return a, t') => k a t'
    | (Raise e, t') => (Raise e, t')
    end.

Definition io_raise {A} (e : exn) : io A := fun t => (Raise e, t).

Definition lift {A} (m : py A) : io A := fun t => (m, t).

Definition io_try {A} (body : io A) (handler : exn -> io A) : io A :=
  fun t =>
    match body t with
    | (Return a, t') => (Return a, t')
    | (Raise e, t') => handler e t'
    end.

#[local] Instance io_mret : MRet io := @io_ret.
#[local] Instance io_mbind : MBind io := fun A B k m => io_bind m k.

Fixpoint for_each {A S} (body : S -> A -> io S) (s : S) (l : list A) : io S :=
  match l with
  | [] => mret s
  | a :: l' => s' ← body s a; for_each body s' l'
  end.

(** The surroundings of one run of [main]. *)
Record World := {
  (** [os.getenv("OPENAI_API_KEY")] *)
  environ_key : option pystr;
  (** reading the input file *)
  open_csv : pystr -> py (list (list pystr));
  (** the completion service *)
  svc : service;
  (** [open(path, 'w')]: the exception it raises, if any *)
  open_error : pystr -> option exn;
  (** [csv_writer.writerow(row)]: the exception it raises, if any *)
  writerow_error : csv_row -> option exn;
  (** the order in which [as_completed] yields the futures, as positions
      in the list of submitted words *)
  completion_order : list nat;
  (** the console *)
  print_error : console;
  (** leaving the [with] block of the output: the exception raised when the
      rows buffered for the path are written out and the file is closed,
      if any *)
  flush_error : pystr -> list csv_row -> option exn
}.

(** Command-line arguments after [parse_arguments]. *)
Record Args := {
  input : pystr;
  output : pystr;
  key : option pystr;
  workers : Z
}.

Section Pipeline.
Context `{Runtime}.
Variable W : World.

(** [print(message)] in [main] and the functions it calls. *)
Definition say (message : pystr) : io () :=
  lift (print (print_error W) message).

Definition writerow (row : csv_row) : io () :=
  fun t =>
    match writerow_error W row with
    | None => (Return (), t ++ [Wrote row])
    | Some e => (Raise e, t)
    end.

Definition row_of (result : TranslationResult) : csv_row :=
  [word result; word_type result; translation result; example result].

Definition message_write_error (result : TranslationResult) (e : exn)
    : pystr :=
  u "Error writing result for word '" ++ format (word result) ++ u "': "
  ++ exn_str e.

Definition write_result_to_csv (result : TranslationResult) : io () :=
  io_try (writerow (row_of result))
         (fun e => say (message_write_error result e)).

(** A submitted future: the word it is filed under in [future_to_word]
    and what [future.result()] does. *)
Definition future : Type := pystr * py TranslationResult.

Definition message_completed (w : pystr) (completed_count total : nat)
    : pystr :=
  u "Completed: " ++ w ++ u " (" ++ str_N (N.of_nat completed_count)
  ++ u "/" ++ str_N (N.of_nat total) ++ u ")".

Definition message_process_error (w : pystr) (e : exn) : pystr :=
  u "Error processing word '" ++ w ++ u "': " ++ exn_str e.

(** The [except] clause of the loop, entered with the counter as it stands. *)
Definition on_future_error (w : pystr) (completed_count : nat) (e : exn)
    : io nat :=
  _ ← say (message_process_error w e);
  _ ← write_result_to_csv (error_result w e);
  mret (S completed_count).

(** The body of the [for future in as_completed(...)] loop;
    [completed_count] is the loop's counter and [total] is [len(words)].
    When the progress message cannot be printed the row has been written
    and the counter has been stepped, and the [except] clause runs on top
    of that. *)
Definition process_future (total completed_count : nat) (f : future)
    : io nat :=
  let '(w, outcome) := f in
  fun t =>
    match (result ← lift outcome; write_result_to_csv result) t with
    | (Raise e, t') => on_future_error w completed_count e t'
    | (Return _, t') =>
        match say (message_completed w (S completed_count) total) t' with
        | (Raise e, t'') => on_future_error w (S completed_count) e t''
        | (Return _, t'') => (Return (S completed_count), t'')
        end
    end.

(** [with open(path, 'w', ...) as csv_file: body].  Leaving the block writes
    out the rows that were buffered and closes the file, whether the body
    returned or raised; there is nothing to write out when no row was
    handed over. *)
Definition with_open {A} (path : pystr) (body : io A) : io A :=
  fun t =>
    match open_error W path with
    | Some e => (Raise e, t)
    | None =>
        let '(r, t') := body (t ++ [Opened path]) in
        match handed_over [] t' with
        | [] => (r, t' ++ [Closed])
        | row :: rows =>
            match flush_error W path (row :: rows) with
            | None => (r, t' ++ [Closed])
            | Some e => (Raise e, t' ++ [CloseFailed])
            end
        end
    end.

(** [ThreadPoolExecutor(max_workers=n)] refuses a bound below one. *)
Definition thread_pool_executor (max_workers : Z) : io () :=
  if (max_workers <=? 0)%Z
  then io_raise {| exn_class := u "ValueError";
                   exn_str := u "max_workers must be greater than 0" |}
  else mret ().

(** [as_completed]: the submitted futures in completion order. *)
Definition as_completed (futures : list future) : list future :=
  omap (fun i => futures !! i) (completion_order W).

(** Flag first, environment second; an empty string counts as unset. *)
Definition resolve_key (args : Args) : option pystr :=
  match key args with
  | Some (c :: k) => Some (c :: k)
  | _ =>
      match environ_key W with
      | Some (c :: k) => Some (c :: k)
      | _ => None
      end
  end.

Definition message_reading (input_file : pystr) : pystr :=
  u "Reading Czech words from " ++ input_file ++ u "...".

Definition message_found (n : nat) : pystr :=
  u "Found " ++ str_N (N.of_nat n) ++ u " words to translate".

Definition message_using (max_workers : Z) : pystr :=
  u "Using " ++ str_Z max_workers ++ u " parallel workers".

Definition message_written (output_file : pystr) : pystr :=
  u "All results written to " ++ output_file.

Definition main (args : Args) : io () :=
  match resolve_key args with
  | None =>
      io_raise {| exn_class := u "ValueError";
                  exn_str := u "OPENAI_API_KEY environment variable is not set" |}
  | Some openai_api_key =>
      _ ← say (message_reading (input args));
      words ← lift (read_czech_words (open_csv W) (input args));
      _ ← say (message_found (length words));
      _ ← say (message_using (workers args));
      _ ← with_open (output args)
            (_ ← writerow header;
             _ ← thread_pool_executor (workers args);
             let future_to_word :=
               map (fun w =>
                      (w, translate_word (print_error W) (svc W) w
                            openai_api_key)) words in
             _ ← for_each (process_future (length words)) 0%nat
                   (as_completed future_to_word);
             mret ());
      _ ← say (message_written (output args));
      say (u "Done!")
  end.
End Pipeline.

End Translator.

(** ** read_anki.py *)

Module ReadAnki.
Import Py.

(** The character class of the pattern [["\'\"`]]: the double quote (listed
    twice), the single quote and the backtick. *)
Definition quote_class : list N := [34; 39; 34; 96]%N.

(** [re.sub(r'["\'\"`]', '', s)] *)
Definition re_sub_quotes (s : pystr) : pystr :=
  filter (fun c => c ∉ quote_class) s.

(** [l[0]] *)
Definition index0 (l : list pystr) : py pystr :=
  match l with
  | x :: _ => Return x
  | [] => Raise {| exn_class := u "IndexError";
                   exn_str := u "list index out of range" |}
  end.

(** The body of the [for line in f] loop. *)
Definition add_line (first_words : list pystr) (line : pystr)
    : py (list pystr) :=
  match strip line with
  | [] => mret first_words
  | _ :: _ =>
      first_word ← index0 (split (strip line));
      let cleaned_word := strip (re_sub_quotes first_word) in
      mret (first_words ++ [cleaned_word])
  end.

Fixpoint read_loop (first_words : list pystr) (lines : list pystr)
    : py (list pystr) :=
  match lines with
  | [] => mret first_words
  | line :: rest =>
      first_words' ← add_line first_words line;
      read_loop first_words' rest
  end.

(** The surroundings of one run of the script. *)
Record World := {
  (** [open(path)] and iteration over it: the lines of the file, each with
      its line terminator, or the exception raised on the way *)
  read_lines : pystr -> py (list pystr);
  (** opening the output and writing to it: the exception raised, if any *)
  write_error : pystr -> option exn
}.

(** How a run ends, and the file it has written: its path and its rows. *)
Inductive outcome :=
| Exit (status : Z)
| Finished (path : pystr) (rows : list (list pystr)).

Definition default_output : pystr := u "result.csv".

(** [output_file] is [None] when the caller leaves the argument out. *)
Definition extract_first_words (W : World) (input_file : pystr)
    (output_file : option pystr) : outcome :=
  let output_file := default default_output output_file in
  match (lines ← read_lines W input_file; read_loop [] lines) with
  | Raise _ => Exit 1
  | Return first_words =>
      match write_error W output_file with
      | Some _ => Exit 1
      | None => Finished output_file (map (fun w => [w]) first_words)
      end
  end.

(** [argv] is [sys.argv]. *)
Definition main (W : World) (argv : list pystr) : outcome :=
  match argv with
  | _ :: input_file :: _ => extract_first_words W input_file None
  | _ => Exit 1
  end.

(** Running the file as a command: it imports its modules and defines the
    two functions above, and there it ends, with status 0.  Nothing in the
    file calls [main]. *)
Definition script (W : World) (argv : list pystr) : outcome := Exit 0.

End ReadAnki.

(** * Contracts and sample data *)

(** ** Source Reader *)

Module ReaderSpec.
Import Py Translator.

(** What the contract of the reader asks for, in its own words: the trimmed
    first column of every row that has one and where it is not blank... *)
Definition first_column (row : list pystr) : option pystr :=
  match row with
  | [] => None
  | first :: _ =>
      match strip first with
      | [] => None
      | c :: w => Some (c :: w)
      end
  end.

Definition first_columns (rows : list (list pystr)) : list pystr :=
  omap first_column rows.

(** ...with every string kept at its first occurrence only. *)
Fixpoint dedup_first (l : list pystr) : list pystr :=
  match l with
  | [] => []
  | x :: l' => x :: filter (fun y => y ≠ x) (dedup_first l')
  end.

End ReaderSpec.

(** ** Item Processor *)

Module ProcessorSpec.
Import Py Translator.

(** A record is fully populated when its word is a non-empty string and its
    type, translation and example are strings. *)
Definition nonempty_str (v : pyval) : bool :=
  match v with VStr (_ :: _) => true | _ => false end.

Definition fully_populated (r : TranslationResult) : Prop :=
  nonempty_str (word r) = true
  /\ is_str (word_type r) = true
  /\ is_str (translation r) = true
  /\ is_str (example r) = true.

(** The value a response holds under a key is a string, or the key is
    missing. *)
Definition str_or_missing (d : gmap pystr pyval) (k : pystr) : Prop :=
  match d !! k with
  | Some v => is_str v = true
  | None => True
  end.

Definition nonempty_or_missing (d : gmap pystr pyval) (k : pystr) : Prop :=
  match d !! k with
  | Some v => nonempty_str v = true
  | None => True
  end.

(** The gender a response carries ([None] when the key is missing). *)
Definition gender_of (d : gmap pystr pyval) : pyval :=
  default VNone (d !! u "gender").

(** The two responses of the contract: a feminine noun, and a verb that
    carries a gender all the same. *)
Definition noun_response : gmap pystr pyval :=
  list_to_map
    [(u "word", VStr (u "kočka")); (u "word_type", VStr (u "noun"));
     (u "gender", VStr (u "f")); (u "translation", VStr (u "cat"));
     (u "example", VStr (u "Kočka spí."))].

Definition verb_response : gmap pystr pyval :=
  list_to_map
    [(u "word", VStr (u "spát")); (u "word_type", VStr (u "verb"));
     (u "gender", VStr (u "f")); (u "translation", VStr (u "to sleep"));
     (u "example", VStr (u "Kočka chce spát."))].

Definition answers (d : gmap pystr pyval) : service :=
  fun _ _ => Return (VDict d).

(** A console that takes every message, and one that cannot encode anything
    outside ASCII. *)
Definition quiet : console := fun _ => None.

Definition encode_error : exn :=
  {| exn_class := u "UnicodeEncodeError";
     exn_str := u "'ascii' codec can't encode character" |}.

Definition ascii_only : console :=
  fun message =>
    if forallb (fun c => c <? 128)%N message then None else Some encode_error.

(** "noun", whatever the case of its four letters. *)
Definition noun_nocase (wt : pystr) : bool :=
  match wt with
  | [a; b; c; d] =>
      ((a =? 110) || (a =? 78)) && ((b =? 111) || (b =? 79))
      && ((c =? 117) || (c =? 85)) && ((d =? 110) || (d =? 78))
  | _ => false
  end%N.

(** The values that count as no gender: the ones Python takes for false. *)
Definition no_gender (g : pyval) : Prop :=
  g = VNone \/ g = VBool false \/ g = VInt 0
  \/ (exists f, g = VFloat f /\ float_is_zero f = true)
  \/ g = VStr [] \/ g = VList [] \/ g = VDict ∅.

(** What is known of the lower-case mapping outside ASCII and is needed to
    compare with "noun": no character becomes nothing, and none becomes or
    contains an [n], an [o] or a [u]. *)
Definition lower_keeps_apart `{Runtime} : Prop :=
  forall c, (128 <= c)%N ->
    unicode_lower c ≠ []
    /\ Forall (fun x => x ≠ 110%N /\ x ≠ 111%N /\ x ≠ 117%N)
         (unicode_lower c).

(** A noun whose gender is there and empty, one in upper case, and two
    whose gender is a number. *)
Definition empty_gender_response : gmap pystr pyval :=
  <[u "gender" := VStr []]> noun_response.

Definition upper_case_response : gmap pystr pyval :=
  <[u "word_type" := VStr (u "NOUN")]> noun_response.

Definition numbered_gender_response (z : Z) : gmap pystr pyval :=
  <[u "gender" := VInt z]> noun_response.

(** A response whose translation is null. *)
Definition null_translation_response : gmap pystr pyval :=
  list_to_map
    [(u "word", VStr (u "pes")); (u "word_type", VStr (u "noun"));
     (u "gender", VStr (u "ma")); (u "translation", VNone);
     (u "example", VStr (u "Pes spí."))].

End ProcessorSpec.

(** ** Dispatcher and Result Sink *)

Module PipelineSpec.
Import Py Translator ReaderSpec.

(** The record a future stands for: what it returns, or the error record
    made for its word when it raises. *)
Definition future_result (f : future) : TranslationResult :=
  match f.2 with
  | Return r => r
  | Raise e => error_result f.1 e
  end.

Definition future_row (f : future) : csv_row := row_of (future_result f).

(** The words [main] submits and the futures it gets for them. *)
Definition submitted `{Runtime} (W : World) (openai_api_key : pystr)
    (words : list pystr) : list future :=
  map (fun w =>
         (w, translate_word (print_error W) (svc W) w openai_api_key)) words.


(** The output file once the loop has taken [K] completions. *)
Definition sink_after `{Runtime} (W : World) (out : pystr)
    (completed : list future) (K : nat) : list file_op :=
  (for_each (process_future W (length completed)) 0%nat (take K completed)
     [Opened out; Wrote header]).2.

(** The console takes every message; closing writes out every row. *)
Definition console_accepts (W : World) : Prop :=
  forall message, print_error W message = None.

Definition closing_succeeds (W : World) : Prop :=
  forall path rows, flush_error W path rows = None.

(** What one pass of the loop adds to the file when its messages are
    printed. *)
Definition written_for (W : World) (f : future) : list file_op :=
  match writerow_error W (future_row f) with
  | None => [Wrote (future_row f)]
  | Some _ => []
  end.

(** The rows the writer takes, among those it is offered. *)
Definition accepted (W : World) (rows : list csv_row) : list csv_row :=
  filter (fun row => writerow_error W row = None) rows.

(** A run over [pes], [kočka], [pes]: the service fails on "pes", and
    "kočka" completes first. *)
Definition timeout : exn :=
  {| exn_class := u "APITimeoutError"; exn_str := u "Request timed out." |}.

Definition demo_service : service :=
  fun w _ =>
    if bool_decide (w = u "kočka")
    then Return (VDict ProcessorSpec.noun_response)
    else Raise timeout.

Definition demo_world : World :=
  {| environ_key := Some (u "sk-test");
     open_csv := fun _ => Return [[u "pes"]; [u "kočka"]; [u "pes"]];
     svc := demo_service;
     open_error := fun _ => None;
     writerow_error := fun _ => None;
     completion_order := [1; 0]%nat;
     print_error := fun _ => None;
     flush_error := fun _ _ => None |}.

Definition demo_args : Args :=
  {| input := u "czech_words.csv";
     output := u "czech_translations.csv";
     key := None;
     workers := 5 |}.

Definition demo_rows : list csv_row :=
  [[VStr (u "kočka"); VStr (u "noun (f)"); VStr (u "cat");
    VStr (u "Kočka spí.")];
   [VStr (u "pes"); VStr (u "error");
    VStr (u "Error: Request timed out."); VStr []]].

(** The same run on a console that cannot encode anything outside ASCII,
    "pes" completing first. *)
Definition narrow_console_world : World :=
  {| environ_key := Some (u "sk-test");
     open_csv := fun _ => Return [[u "pes"]; [u "kočka"]];
     svc := demo_service;
     open_error := fun _ => None;
     writerow_error := fun _ => None;
     completion_order := [0; 1]%nat;
     print_error := ProcessorSpec.ascii_only;
     flush_error := fun _ _ => None |}.

(** A run in which the service answers "pes" with a translation that holds
    a lone surrogate, as [json.loads] lets through; the file, opened with
    [encoding='utf-8'], cannot take it. *)
Definition is_surrogate (c : N) : bool := ((55296 <=? c) && (c <=? 57343))%N.

Definition encodable (v : pyval) : bool :=
  match v with
  | VStr s => forallb (fun c => negb (is_surrogate c)) s
  | _ => true
  end.

Definition surrogate_error : exn :=
  {| exn_class := u "UnicodeEncodeError";
     exn_str := u "'utf-8' codec can't encode character: surrogates not allowed" |}.

Definition utf8_writer (row : csv_row) : option exn :=
  if forallb encodable row then None else Some surrogate_error.

Definition surrogate_response : gmap pystr pyval :=
  list_to_map
    [(u "word", VStr (u "pes")); (u "word_type", VStr (u "noun"));
     (u "gender", VStr (u "ma")); (u "translation", VStr [55357%N]);
     (u "example", VStr (u "Pes spí."))].

Definition surrogate_service : service :=
  fun w _ =>
    if bool_decide (w = u "kočka")
    then Return (VDict ProcessorSpec.noun_response)
    else Return (VDict surrogate_response).

Definition surrogate_world : World :=
  {| environ_key := Some (u "sk-test");
     open_csv := fun _ => Return [[u "pes"]; [u "kočka"]];
     svc := surrogate_service;
     open_error := fun _ => None;
     writerow_error := utf8_writer;
     completion_order := [1; 0]%nat;
     print_error := fun _ => None;
     flush_error := fun _ _ => None |}.

(** The run of [demo_world] on a disk that is full: the rows are taken into
    the buffer and cannot be written out. *)
Definition no_space : exn :=
  {| exn_class := u "OSError";
     exn_str := u "[Errno 28] No space left on device" |}.

Definition full_disk_world : World :=
  {| environ_key := Some (u "sk-test");
     open_csv := fun _ => Return [[u "pes"]; [u "kočka"]; [u "pes"]];
     svc := demo_service;
     open_error := fun _ => None;
     writerow_error := fun _ => None;
     completion_order := [1; 0]%nat;
     print_error := fun _ => None;
     flush_error := fun _ _ => Some no_space |}.

End PipelineSpec.

(** ** Token Extractor *)

Module ExtractorSpec.
Import Py ReadAnki.

(** The contract of the extractor, in its own words.  A line is blank when
    it holds nothing but whitespace; its first token is what stands between
    the leading whitespace and the next whitespace; sanitizing removes every
    character of a set of quote characters. *)
Definition blank (line : pystr) : bool := forallb isspace line.

Fixpoint take_while (p : N -> bool) (s : pystr) : pystr :=
  match s with
  | c :: s' => if p c then c :: take_while p s' else []
  | [] => []
  end.

Definition visible (c : N) : bool := negb (isspace c).

Definition first_token (line : pystr) : pystr :=
  take_while visible (lstrip line).

Definition ascii_quotes : list N := [34; 39; 96]%N.
Definition typographic_quotes : list N := [8220; 8221; 8216; 8217]%N.

Definition without (set : list N) (s : pystr) : pystr :=
  filter (fun c => c ∉ set) s.

(** One row of one cell for every line that is not blank. *)
Definition expected_rows (set : list N) (lines : list pystr)
    : list (list pystr) :=
  map (fun line => [without set (first_token line)])
      (filter (fun line => blank line = false) lines).

(** A file system that holds the given lines under every name and accepts
    every output. *)
Definition holding (lines : list pystr) : World :=
  {| read_lines := fun _ => Return lines; write_error := fun _ => None |}.

(** The lines of the contract, once with typographic and once with ASCII
    quotes, each with its line feed. *)
Definition typographic_lines : list pystr :=
  [u "  “Ahoj” world" ++ [10%N]; u "‘Čau’  " ++ [10%N]; [10%N]].

Definition ascii_lines : list pystr :=
  [u "  " ++ [34%N] ++ u "Ahoj" ++ [34%N] ++ u " world" ++ [10%N];
   u "'Čau'  " ++ [10%N];
   [10%N]].

(** A token with quotes inside, then a token of quotes alone. *)
Definition quoted_lines : list pystr :=
  [u "it's`x rest" ++ [10%N]; [34; 39; 96; 34; 32]%N ++ u "word" ++ [10%N]].

End ExtractorSpec.

(** ** Further contracts: [main.py] *)

Module MainPySpec.
Import Py Translator ReaderSpec ProcessorSpec PipelineSpec.

(** The rows of a file cut down to their first field. *)
Definition first_fields (rows : list (list pystr)) : list (list pystr) :=
  map (take 1) rows.

(** A list of words laid out as a file of one column. *)
Definition one_column (words : list pystr) : list (list pystr) :=
  map (fun w => [w]) words.

(** What a run has done to the output file: nothing, or opened it, written
    some rows of four cells, the header first, and closed it, with or
    without an error at closing. *)
Definition file_session (out : pystr) (ops : list file_op) : Prop :=
  ops = []
  \/ exists rows last,
       ops = Opened out :: map Wrote rows ++ [last]
       /\ (last = Closed \/ last = CloseFailed)
       /\ (rows = [] \/ exists rest, rows = header :: rest)
       /\ Forall (fun row => length row = 4%nat) rows.

(** A statement that does nothing to the file but hand rows of four cells
    to the writer, whether it returns or raises. *)
Definition appends_rows {A} (m : io A) : Prop :=
  forall t, exists rows,
    (m t).2 = t ++ map Wrote rows
    /\ Forall (fun row => length row = 4%nat) rows.

(** The statements of [main] from the opening of the output on, for the key
    and the words it has found. *)
Definition after_setup `{Runtime} (W : World) (args : Args)
    (openai_api_key : pystr) (words : list pystr) : io () :=
  io_bind
    (with_open W (output args)
       (io_bind (writerow W header) (fun _ =>
        io_bind (thread_pool_executor (workers args)) (fun _ =>
        io_bind (for_each (process_future W (length words)) 0%nat
                   (as_completed W (submitted W openai_api_key words)))
                (fun _ => io_ret ())))))
    (fun _ =>
       io_bind (say W (message_written (output args)))
               (fun _ => say W (u "Done!"))).

Definition is_return {A} (r : py A) : bool :=
  match r with Return _ => true | Raise _ => false end.

(** The two exceptions [main] raises by itself or through the pool. *)
Definition no_key_error : exn :=
  {| exn_class := u "ValueError";
     exn_str := u "OPENAI_API_KEY environment variable is not set" |}.

Definition pool_error : exn :=
  {| exn_class := u "ValueError";
     exn_str := u "max_workers must be greater than 0" |}.

(** A writer that refuses the rows of error records. *)
Definition refuses_errors (row : csv_row) : option exn :=
  match row with
  | [_; VStr t; _; _] =>
      if bool_decide (t = u "error")
      then Some {| exn_class := u "OSError"; exn_str := u "No space left" |}
      else None
  | _ => None
  end.

Definition picky_world : World :=
  {| environ_key := Some (u "sk-test");
     open_csv := fun _ => Return [[u "pes"]; [u "kočka"]; [u "pes"]];
     svc := demo_service;
     open_error := fun _ => None;
     writerow_error := refuses_errors;
     completion_order := [1; 0]%nat;
     print_error := fun _ => None;
     flush_error := fun _ _ => None |}.

Definition no_workers_args : Args :=
  {| input := u "czech_words.csv";
     output := u "czech_translations.csv";
     key := Some (u "sk-flag");
     workers := 0 |}.

End MainPySpec.

(** ** Further contracts: [read_anki.py] *)

Module ReadAnkiSpec.
Import Py ReadAnki ExtractorSpec.

(** The cells of a file of rows. *)
Definition cells (rows : list (list pystr)) : list pystr := concat rows.

(** The cells written back as lines, each with its line feed. *)
Definition as_lines (cs : list pystr) : list pystr :=
  map (fun c => c ++ [10%N]) cs.

End ReadAnkiSpec.

(** * Properties *)

(** ** Source Reader *)

Module ReaderFacts.
Import Py Translator ReaderSpec.

Lemma add_row_skip words row :
  first_column row = None -> add_row words row = words.
Proof.
  unfold first_column, add_row. destruct row as [|first rest]; [done|].
  destruct (strip first); [done|discriminate].
Qed.

Lemma add_row_keep words row w :
  first_column row = Some w ->
  add_row words row = if bool_decide (w ∈ words) then words else words ++ [w].
Proof.
  unfold first_column, add_row. destruct row as [|first rest]; [discriminate|].
  destruct (strip first) as [|c s]; [discriminate|]. by intros [= <-].
Qed.

Lemma filter_not_in_snoc (acc : list pystr) (c : pystr) (l : list pystr) :
  filter (fun y => y ∉ acc ++ [c]) l
  = filter (fun y => y ∉ acc) (filter (fun y => y ≠ c) l).
Proof.
  induction l as [|y l IH]; [done|].
  rewrite !filter_cons.
  destruct (decide (y ∉ acc ++ [c])) as [Hy|Hy].
  - rewrite decide_True by set_solver. rewrite filter_cons.
    rewrite decide_True by set_solver. by rewrite IH.
  - destruct (decide (y ≠ c)) as [Hc|Hc].
    + rewrite filter_cons, decide_False by set_solver. done.
    + done.
Qed.

Lemma filter_not_in_absorb (acc : list pystr) (c : pystr) (l : list pystr) :
  c ∈ acc ->
  filter (fun y => y ∉ acc) (filter (fun y => y ≠ c) l)
  = filter (fun y => y ∉ acc) l.
Proof.
  intros Hc. induction l as [|y l IH]; [done|].
  rewrite !filter_cons.
  destruct (decide (y ≠ c)) as [Hy|Hy].
  - rewrite filter_cons. by rewrite IH.
  - apply dec_stable in Hy. subst y.
    rewrite decide_False by (intros Hn; by apply Hn). done.
Qed.

(** The loop with an arbitrary list already collected. *)
Lemma foldl_add_row acc rows :
  foldl add_row acc rows
  = acc ++ filter (fun y => y ∉ acc) (dedup_first (first_columns rows)).
Proof.
  revert acc. induction rows as [|row rows IH]; intros acc; simpl.
  - by rewrite app_nil_r.
  - unfold first_columns. simpl. fold (first_columns rows).
    destruct (first_column row) as [w|] eqn:Hrow; simpl.
    + rewrite (add_row_keep _ _ _ Hrow). rewrite filter_cons.
      case_bool_decide as Hin.
      * rewrite decide_False by (intros Hn; by apply Hn).
        rewrite IH. by rewrite filter_not_in_absorb.
      * rewrite decide_True by done.
        rewrite IH, filter_not_in_snoc. by rewrite <- app_assoc.
    + rewrite (add_row_skip _ _ Hrow). apply IH.
Qed.

Lemma filter_not_in_nil (l : list pystr) :
  filter (fun y => y ∉ ([] : list pystr)) l = l.
Proof.
  induction l as [|y l IH]; [done|].
  rewrite filter_cons, decide_True by set_solver. by rewrite IH.
Qed.

Lemma elem_of_dedup_first l w : w ∈ dedup_first l <-> w ∈ l.
Proof.
  induction l as [|x l IH]; simpl; [done|].
  rewrite !elem_of_cons, list_elem_of_filter, IH.
  destruct (decide (w = x)); naive_solver.
Qed.

Lemma NoDup_dedup_first l : NoDup (dedup_first l).
Proof.
  induction l as [|x l IH]; simpl; [constructor|].
  constructor.
  - rewrite list_elem_of_filter. naive_solver.
  - by apply NoDup_filter.
Qed.

Lemma elem_of_first_columns rows w :
  w ∈ first_columns rows <->
  exists first rest, (first :: rest) ∈ rows /\ strip first = w /\ w ≠ [].
Proof.
  unfold first_columns. rewrite list_elem_of_omap. split.
  - intros (row & Hin & Hrow). destruct row as [|first rest]; [discriminate|].
    simpl in Hrow. destruct (strip first) as [|c s] eqn:Hs; [discriminate|].
    injection Hrow as <-. exists first, rest. by rewrite Hs.
  - intros (first & rest & Hin & Hs & Hne). exists (first :: rest).
    split; [done|]. simpl. rewrite Hs. by destruct w.
Qed.

(** C4. When the input file can be read, [read_czech_words] returns the
    trimmed first column of every row that is not empty and whose first
    column is not blank, each string once, in the order of first
    occurrence. *)
Theorem read_czech_words_distinct_in_order
    (open_csv : pystr -> py (list (list pystr))) (input_file : pystr)
    (rows : list (list pystr)) :
  open_csv input_file = Return rows ->
  exists words,
    read_czech_words open_csv input_file = Return words
    /\ words = dedup_first (first_columns rows)
    /\ NoDup words
    /\ (forall w, w ∈ words <->
          exists first rest,
            (first :: rest) ∈ rows /\ strip first = w /\ w ≠ []).
Proof.
  intros Hopen. exists (dedup_first (first_columns rows)).
  split; [|split; [done|split]].
  - unfold read_czech_words. rewrite Hopen. simpl.
    by rewrite foldl_add_row, filter_not_in_nil.
  - apply NoDup_dedup_first.
  - intros w. by rewrite elem_of_dedup_first, elem_of_first_columns.
Qed.

(** The rows [pes], [kočka], [pes] of the contract. *)
Example read_czech_words_pes_kocka :
  read_czech_words (fun _ => Return [[u "pes"]; [u "kočka"]; [u "pes"]])
                   (u "czech_words.csv")
  = Return [u "pes"; u "kočka"].
Proof. reflexivity. Qed.

Lemma read_czech_words_distinct_in_order_witness :
  exists words,
    read_czech_words
      (fun _ => Return [[u " pes "; u "dog"]; []; [u "  "]; [u "kočka"]; [u "pes"]])
      (u "czech_words.csv") = Return words
    /\ words = [u "pes"; u "kočka"].
Proof.
  destruct (read_czech_words_distinct_in_order
              (fun _ => Return [[u " pes "; u "dog"]; []; [u "  "]; [u "kočka"]; [u "pes"]])
              (u "czech_words.csv") _ eq_refl) as (words & Hrun & Hwords & _).
  exists words. split; [exact Hrun|]. rewrite Hwords. vm_compute. reflexivity.
Defined.

(** A failure to read is passed on to the caller. *)
Lemma read_czech_words_reraises open_csv input_file e :
  open_csv input_file = Raise e ->
  read_czech_words open_csv input_file = Raise e.
Proof. intros Hopen. unfold read_czech_words. by rewrite Hopen. Qed.

End ReaderFacts.

(** ** Item Processor *)

Module ProcessorFacts.
Import Py Translator ProcessorSpec.

Section Facts.
Context `{Runtime}.
Variable out : console.
Variable svc : service.

(** The [try] block, once the response is known to be a dict with a string
    (or nothing) as its word type and the progress message is printed. *)
Lemma translate_word_try_dict w k d wt :
  svc w k = Return (VDict d) ->
  out (message_translated w) = None ->
  default (VStr []) (d !! u "word_type") = VStr wt ->
  translate_word_try out svc w k =
    Return {| word := default (VStr w) (d !! u "word");
              word_type :=
                if bool_decide (lower_str wt = u "noun")
                   && truthy (gender_of d)
                then VStr (wt ++ u " (" ++ format (gender_of d) ++ u ")")
                else VStr wt;
              gender := gender_of d;
              translation := default (VStr []) (d !! u "translation");
              example := default (VStr []) (d !! u "example") |}.
Proof.
  intros Hsvc Hout Hwt. unfold translate_word_try, print.
  rewrite Hsvc. simpl. rewrite Hout. simpl. rewrite Hwt. simpl. done.
Qed.

(** When the [try] block returns, the response was such a dict and the
    message was printed. *)
Lemma translate_word_try_inv w k r :
  translate_word_try out svc w k = Return r ->
  exists d wt,
    svc w k = Return (VDict d)
    /\ out (message_translated w) = None
    /\ default (VStr []) (d !! u "word_type") = VStr wt.
Proof.
  unfold translate_word_try, print.
  destruct (svc w k) as [v|e]; [|discriminate]. simpl.
  destruct (out (message_translated w)) as [e|] eqn:Hout; [discriminate|].
  simpl. destruct v; try discriminate. simpl.
  destruct (default (VStr []) (d !! u "word_type")) eqn:Hwt;
    try discriminate.
  intros _. by eexists _, _.
Qed.

Lemma translate_word_success w k r :
  translate_word_try out svc w k = Return r ->
  translate_word out svc w k = Return r.
Proof. intros Htry. unfold translate_word. by rewrite Htry. Qed.

(** What the handler makes of a failure of the [try] block. *)
Lemma translate_word_handled w k e :
  translate_word_try out svc w k = Raise e ->
  translate_word out svc w k =
    match out (message_translate_error w e) with
    | None => Return (error_result w e)
    | Some e' => Raise e'
    end.
Proof.
  intros Htry. unfold translate_word, print. rewrite Htry. simpl.
  by destruct (out (message_translate_error w e)).
Qed.

(** The failures of the [try] block, one by one. *)
Lemma translate_word_try_cases w k :
  match svc w k with
  | Raise e => translate_word_try out svc w k = Raise e
  | Return v =>
      match out (message_translated w) with
      | Some e => translate_word_try out svc w k = Raise e
      | None =>
          match v with
          | VDict d =>
              match default (VStr []) (d !! u "word_type") with
              | VStr _ => exists r, translate_word_try out svc w k = Return r
              | t =>
                  translate_word_try out svc w k
                  = Raise (attribute_error t (u "lower"))
              end
          | _ =>
              translate_word_try out svc w k
              = Raise (attribute_error v (u "get"))
          end
      end
  end.
Proof.
  unfold translate_word_try, print.
  destruct (svc w k) as [v|e]; [|done]. simpl.
  destruct (out (message_translated w)) as [e|]; [done|]. simpl.
  destruct v; try done. simpl.
  destruct (default (VStr []) (d !! u "word_type")); try done.
  by eexists.
Qed.

(** *** Comparing with "noun" *)

Lemma lower_str_cons c s : lower_str (c :: s) = lower_char c ++ lower_str s.
Proof. done. Qed.

Lemma lower_char_ascii c :
  (c < 128)%N ->
  lower_char c = [if (65 <=? c)%N && (c <=? 90)%N then (c + 32)%N else c].
Proof.
  intros Hc. unfold lower_char.
  destruct (N.ltb_spec c 128) as [_|Hge]; [|lia].
  by destruct ((65 <=? c)%N && (c <=? 90)%N).
Qed.

Lemma lower_str_letters (target wt : pystr) :
  lower_keeps_apart ->
  Forall (fun x => x = 110%N \/ x = 111%N \/ x = 117%N) target ->
  lower_str wt = target ->
  Forall2 (fun c x => (c < 128)%N /\ lower_char c = [x]) wt target.
Proof.
  intros Hrt. revert target. induction wt as [|c s IH]; intros target Hnou.
  - intros <-. constructor.
  - rewrite lower_str_cons. destruct (N.ltb_spec c 128) as [Hc|Hc].
    + rewrite (lower_char_ascii c Hc). simpl. intros <-.
      apply Forall_cons in Hnou as [_ Hnou].
      constructor; [|by apply IH].
      split; [done|]. by rewrite (lower_char_ascii c Hc).
    + unfold lower_char. destruct (N.ltb_spec c 128) as [Hlt|_]; [lia|].
      destruct (Hrt c Hc) as [Hne Hpiece].
      destruct (unicode_lower c) as [|p ps]; [done|].
      simpl. intros <-.
      apply Forall_cons in Hnou as [Hp _].
      apply Forall_cons in Hpiece as [Hp' _]. naive_solver.
Qed.

Lemma lower_char_letter c x :
  (c < 128)%N -> lower_char c = [x] ->
  x = 110%N \/ x = 111%N \/ x = 117%N ->
  c = x \/ c = (x - 32)%N.
Proof.
  intros Hc. rewrite (lower_char_ascii c Hc). intros [= <-].
  destruct (N.leb_spec 65 c), (N.leb_spec c 90); simpl; lia.
Qed.

(** [wt.lower() == "noun"] holds of the sixteen spellings of "noun" and of
    nothing else. *)
Lemma lower_is_noun wt :
  lower_keeps_apart ->
  lower_str wt = u "noun" <-> noun_nocase wt = true.
Proof.
  intros Hrt. change (u "noun") with [110; 111; 117; 110]%N. split.
  - intros Hlow.
    apply lower_str_letters in Hlow; [|done|].
    2: { apply Forall_forall. intros x Hx.
         repeat (apply elem_of_cons in Hx as [->|Hx]; [naive_solver|]).
         by apply elem_of_nil in Hx. }
    pose proof (Forall2_length _ _ _ Hlow) as Hlen.
    destruct wt as [|a [|b [|c [|d [|e wt]]]]]; try discriminate Hlen.
    apply Forall2_cons_1 in Hlow as [[Ha Ha'] Hlow].
    apply Forall2_cons_1 in Hlow as [[Hb Hb'] Hlow].
    apply Forall2_cons_1 in Hlow as [[Hc Hc'] Hlow].
    apply Forall2_cons_1 in Hlow as [[Hd Hd'] _].
    apply lower_char_letter in Ha'; [|done|by left].
    apply lower_char_letter in Hb'; [|done|by right; left].
    apply lower_char_letter in Hc'; [|done|by right; right].
    apply lower_char_letter in Hd'; [|done|by left].
    destruct Ha' as [-> | ->], Hb' as [-> | ->], Hc' as [-> | ->],
      Hd' as [-> | ->]; reflexivity.
  - destruct wt as [|a [|b [|c [|d [|e wt]]]]]; try discriminate.
    unfold noun_nocase.
    rewrite !andb_true_iff, !orb_true_iff, !N.eqb_eq.
    intros [[[[-> | ->] [-> | ->]] [-> | ->]] [-> | ->]]; reflexivity.
Qed.

End Facts.

Lemma truthy_false_iff (g : pyval) : truthy g = false <-> no_gender g.
Proof.
  unfold no_gender. destruct g as [|b|z|f|s|l|d]; simpl.
  - naive_solver.
  - destruct b; naive_solver.
  - destruct (Z.eqb_spec z 0) as [->|Hz]; simpl; [naive_solver|].
    split; [done|]. intros [?|[?|[?|[[? [? ?]]|[?|[?|?]]]]]]; congruence.
  - destruct (float_is_zero f) eqn:Hf; simpl; [naive_solver|].
    split; [done|].
    intros [?|[?|[?|[[f' [[= <-] ?]]|[?|[?|?]]]]]]; congruence.
  - destruct s; naive_solver.
  - destruct l; naive_solver.
  - case_bool_decide as Hd; simpl; [subst; naive_solver|].
    split; [done|]. intros [?|[?|[?|[[? [? ?]]|[?|[?|?]]]]]]; congruence.
Qed.

Lemma ascii_runtime_keeps_apart : @lower_keeps_apart ascii_runtime.
Proof.
  intros c Hc. simpl. split; [done|]. repeat constructor; lia.
Qed.

(** C1. The claim is right and the code misses it: the handler of
    [translate_word] prints before it returns, outside any [try], so on a
    console that cannot encode the word the function raises.  Here the
    progress message fails first, and the handler's own message next. *)
Theorem translate_word_raises_from_handler :
  translate_word_try (H := ascii_runtime) ascii_only (answers noun_response)
    (u "kočka") (u "sk-test") = Raise encode_error
  /\ translate_word (H := ascii_runtime) ascii_only (answers noun_response)
       (u "kočka") (u "sk-test") = Raise encode_error.
Proof. split; vm_compute; reflexivity. Qed.

(** C3, as the contract words it, does not hold: a noun whose gender is
    there, and is the empty string, keeps its word type as it is. *)
Lemma empty_gender_not_appended :
  empty_gender_response !! u "gender" = Some (VStr [])
  /\ (word_type <$> translate_word (H := ascii_runtime) quiet
        (answers empty_gender_response) (u "kočka") (u "sk-test"))
     = Return (VStr (u "noun"))
  /\ (word_type <$> translate_word (H := ascii_runtime) quiet
        (answers empty_gender_response) (u "kočka") (u "sk-test"))
     ≠ Return (VStr (u "noun ()")).
Proof. vm_compute. repeat split; discriminate. Qed.

(** C3, amended. For a response whose word type is the string [wt], and
    once the progress message is printed, the gender is appended in
    parentheses exactly when [wt] is "noun" in any mix of upper and lower
    case and the gender is a value Python takes for true: not missing, not
    null, and not empty, zero or false.  Any other word type comes back as
    it is whatever the gender, and so does a noun without such a gender. *)
Theorem gender_suffix_only_for_nouns `{Runtime} (out : console)
    (svc : service) (w openai_api_key : pystr) (d : gmap pystr pyval)
    (wt : pystr) :
  lower_keeps_apart ->
  svc w openai_api_key = Return (VDict d) ->
  out (message_translated w) = None ->
  default (VStr []) (d !! u "word_type") = VStr wt ->
  exists r,
    translate_word out svc w openai_api_key = Return r
    /\ (noun_nocase wt = true -> ~ no_gender (gender_of d) ->
        word_type r = VStr (wt ++ u " (" ++ format (gender_of d) ++ u ")"))
    /\ (noun_nocase wt = false \/ no_gender (gender_of d) ->
        word_type r = VStr wt).
Proof.
  intros Hrt Hsvc Hout Hwt. eexists. split.
  { apply translate_word_success.
    by apply (translate_word_try_dict out svc w openai_api_key d wt). }
  simpl. split.
  - intros Hnoun Hg.
    rewrite bool_decide_eq_true_2 by (by apply lower_is_noun).
    destruct (truthy (gender_of d)) eqn:Htruthy; [done|].
    by apply truthy_false_iff in Htruthy.
  - intros [Hnoun|Hg].
    + rewrite bool_decide_eq_false_2; [done|].
      rewrite lower_is_noun by done. by rewrite Hnoun.
    + apply truthy_false_iff in Hg. rewrite Hg. by rewrite andb_false_r.
Qed.

(** Upper case with a gender, a verb with a gender, a noun whose gender is
    a number, and a noun whose gender is zero. *)
Lemma gender_suffix_only_for_nouns_witness :
  (exists r,
     translate_word (H := ascii_runtime) quiet (answers upper_case_response)
       (u "kočka") (u "sk-test") = Return r
     /\ word_type r = VStr (u "NOUN (f)"))
  /\ (exists r,
        translate_word (H := ascii_runtime) quiet (answers verb_response)
          (u "spát") (u "sk-test") = Return r
        /\ word_type r = VStr (u "verb"))
  /\ (exists r,
        translate_word (H := ascii_runtime) quiet
          (answers (numbered_gender_response 5)) (u "kočka") (u "sk-test")
        = Return r
        /\ word_type r = VStr (u "noun (5)"))
  /\ (exists r,
        translate_word (H := ascii_runtime) quiet
          (answers (numbered_gender_response 0)) (u "kočka") (u "sk-test")
        = Return r
        /\ word_type r = VStr (u "noun")).
Proof.
  split; [|split; [|split]].
  - destruct (gender_suffix_only_for_nouns (H := ascii_runtime) quiet
                (answers upper_case_response) (u "kočka") (u "sk-test")
                upper_case_response (u "NOUN") ascii_runtime_keeps_apart)
      as (r & Hr & Hyes & _);
      [reflexivity|reflexivity|vm_compute; reflexivity|].
    exists r. split; [exact Hr|].
    etransitivity; [apply Hyes|].
    + vm_compute. reflexivity.
    + vm_compute.
      intros [?|[?|[?|[[? [? ?]]|[?|[?|?]]]]]]; discriminate.
    + vm_compute. reflexivity.
  - destruct (gender_suffix_only_for_nouns (H := ascii_runtime) quiet
                (answers verb_response) (u "spát") (u "sk-test")
                verb_response (u "verb") ascii_runtime_keeps_apart)
      as (r & Hr & _ & Hno);
      [reflexivity|reflexivity|vm_compute; reflexivity|].
    exists r. split; [exact Hr|].
    etransitivity; [apply Hno|].
    + left. vm_compute. reflexivity.
    + vm_compute. reflexivity.
  - destruct (gender_suffix_only_for_nouns (H := ascii_runtime) quiet
                (answers (numbered_gender_response 5)) (u "kočka")
                (u "sk-test") (numbered_gender_response 5) (u "noun")
                ascii_runtime_keeps_apart)
      as (r & Hr & Hyes & _);
      [reflexivity|reflexivity|vm_compute; reflexivity|].
    exists r. split; [exact Hr|].
    etransitivity; [apply Hyes|].
    + vm_compute. reflexivity.
    + vm_compute.
      intros [?|[?|[?|[[? [? ?]]|[?|[?|?]]]]]]; discriminate.
    + vm_compute. reflexivity.
  - destruct (gender_suffix_only_for_nouns (H := ascii_runtime) quiet
                (answers (numbered_gender_response 0)) (u "kočka")
                (u "sk-test") (numbered_gender_response 0) (u "noun")
                ascii_runtime_keeps_apart)
      as (r & Hr & _ & Hno);
      [reflexivity|reflexivity|vm_compute; reflexivity|].
    exists r. split; [exact Hr|].
    etransitivity; [apply Hno|].
    + right. right. right. left. vm_compute. reflexivity.
    + vm_compute. reflexivity.
Defined.

(** C6. The claim is right and the code misses it: the defaults of
    [result.get] fill in missing keys only, so a response whose translation
    is null comes back with no translation string, against the declared
    [translation: str]. *)
Theorem translate_word_null_translation :
  translate_word (H := ascii_runtime) quiet (answers null_translation_response)
    (u "pes") (u "sk-test")
  = Return {| word := VStr (u "pes");
              word_type := VStr (u "noun (ma)");
              gender := VStr (u "ma");
              translation := VNone;
              example := VStr (u "Pes spí.") |}
  /\ ~ exists r,
        translate_word (H := ascii_runtime) quiet
          (answers null_translation_response) (u "pes") (u "sk-test")
        = Return r
        /\ fully_populated r.
Proof.
  split; [vm_compute; reflexivity|].
  intros (r & Hr & _ & _ & Htr & _).
  vm_compute in Hr. injection Hr as <-. discriminate Htr.
Qed.

(** The word is taken from the response as well, empty or not. *)
Example translate_word_empty_word :
  word <$> translate_word (H := ascii_runtime) quiet
    (answers (<[u "word" := VStr []]> noun_response)) (u "pes") (u "sk-test")
  = Return (VStr []).
Proof. vm_compute. reflexivity. Qed.

(** C9. On the success path the word of the record is the value the response
    holds under "word", and the input word only when the response has no
    such key; so the returned word differs from the input whenever the
    service answers with another string. *)
Theorem translate_word_word_from_response `{Runtime} (out : console)
    (svc : service) (w openai_api_key : pystr) (r : TranslationResult) :
  translate_word_try out svc w openai_api_key = Return r ->
  translate_word out svc w openai_api_key = Return r
  /\ exists d,
       svc w openai_api_key = Return (VDict d)
       /\ word r = match d !! u "word" with
                   | Some v => v
                   | None => VStr w
                   end
       /\ (forall w', d !! u "word" = Some (VStr w') -> w' ≠ w ->
             word r ≠ VStr w).
Proof.
  intros Htry. split; [by apply translate_word_success|].
  destruct (translate_word_try_inv out svc w openai_api_key r Htry)
    as (d & wt & Hsvc & Hout & Hwt).
  exists d. split; [done|].
  rewrite (translate_word_try_dict out svc w openai_api_key d wt Hsvc Hout Hwt)
    in Htry.
  injection Htry as <-. simpl.
  split; [by destruct (d !! u "word")|].
  intros w' Hw' Hne. rewrite Hw'. simpl. congruence.
Qed.

(** The service is asked about "kočky" and answers with "kočka". *)
Lemma translate_word_word_from_response_witness :
  exists r,
    translate_word (H := ascii_runtime) quiet (answers noun_response)
      (u "kočky") (u "sk-test") = Return r
    /\ word r = VStr (u "kočka")
    /\ word r ≠ VStr (u "kočky").
Proof.
  eexists.
  destruct (translate_word_word_from_response (H := ascii_runtime) quiet
              (answers noun_response) (u "kočky") (u "sk-test") _ eq_refl)
    as (Hr & d & Hd & Hword & Hdiff).
  split; [exact Hr|]. split; [reflexivity|].
  injection Hd as <-. apply (Hdiff (u "kočka")); [reflexivity|].
  vm_compute. discriminate.
Defined.

(** Without the key the input word is kept. *)
Example translate_word_word_fallback :
  word <$> translate_word (H := ascii_runtime) quiet
    (answers (delete (u "word") noun_response)) (u "kočky") (u "sk-test")
  = Return (VStr (u "kočky")).
Proof. vm_compute. reflexivity. Qed.

End ProcessorFacts.

(** ** Dispatcher and Result Sink *)

Module PipelineFacts.
Import Py Translator ReaderSpec ReaderFacts PipelineSpec.

Section Loop.
Context `{Runtime}.
Variable W : World.

Lemma io_bind_return {A B} (m : py A) (a : A) (k : A -> io B) t :
  m = Return a -> io_bind (lift m) k t = k a t.
Proof. by intros ->. Qed.

Lemma io_bind_raise {A B} (m : py A) (e : exn) (k : A -> io B) t :
  m = Raise e -> io_bind (lift m) k t = (Raise e, t).
Proof. by intros ->. Qed.

Lemma say_accepted message t :
  print_error W message = None -> say W message t = (Return (), t).
Proof. intros Hok. unfold say, lift, print. by rewrite Hok. Qed.

Lemma say_refused message e t :
  print_error W message = Some e -> say W message t = (Raise e, t).
Proof. intros Hno. unfold say, lift, print. by rewrite Hno. Qed.

Lemma io_bind_say {B} message (k : () -> io B) t :
  print_error W message = None -> io_bind (say W message) k t = k () t.
Proof. intros Hok. unfold io_bind. by rewrite say_accepted. Qed.

Lemma read_czech_words_run input_file rows :
  open_csv W input_file = Return rows ->
  read_czech_words (open_csv W) input_file
  = Return (dedup_first (first_columns rows)).
Proof.
  intros Hin. unfold read_czech_words. rewrite Hin. simpl.
  by rewrite foldl_add_row, filter_not_in_nil.
Qed.

(** [write_result_to_csv] in both cases. *)
Lemma write_result_to_csv_run result t :
  write_result_to_csv W result t =
    match writerow_error W (row_of result) with
    | None => (Return (), t ++ [Wrote (row_of result)])
    | Some e => (print (print_error W) (message_write_error result e), t)
    end.
Proof.
  unfold write_result_to_csv, io_try, writerow, say, lift.
  by destruct (writerow_error W (row_of result)).
Qed.

Lemma write_result_to_csv_accepted result t :
  console_accepts W ->
  write_result_to_csv W result t =
    (Return (),
     t ++ match writerow_error W (row_of result) with
          | None => [Wrote (row_of result)]
          | Some _ => []
          end).
Proof.
  intros Hquiet. rewrite write_result_to_csv_run.
  destruct (writerow_error W (row_of result)); [|done].
  unfold print. by rewrite Hquiet, app_nil_r.
Qed.

(** One pass of the loop when its messages are printed. *)
Lemma process_future_run total n f t :
  console_accepts W ->
  process_future W total n f t = (Return (S n), t ++ written_for W f).
Proof.
  intros Hquiet. destruct f as [w [r|e]];
    unfold process_future, on_future_error, written_for, future_row,
           future_result, mbind, io_mbind; simpl.
  - rewrite (io_bind_return (Return r) r) by done.
    rewrite write_result_to_csv_accepted by done.
    unfold print. by rewrite Hquiet.
  - rewrite io_bind_say by apply Hquiet.
    unfold io_bind. by rewrite write_result_to_csv_accepted by done.
Qed.

Lemma for_each_process_run total fs n t :
  console_accepts W ->
  for_each (process_future W total) n fs t
  = (Return (n + length fs)%nat, t ++ concat (map (written_for W) fs)).
Proof.
  intros Hquiet. revert n t. induction fs as [|f fs IH]; intros n t; simpl.
  - by rewrite Nat.add_0_r, app_nil_r.
  - unfold mbind, io_mbind, io_bind. rewrite process_future_run, IH by done.
    by rewrite <- app_assoc, Nat.add_succ_r.
Qed.

Lemma written_for_concat (fs : list future) :
  concat (map (written_for W) fs)
  = map Wrote (accepted W (map future_row fs)).
Proof.
  unfold accepted. induction fs as [|f fs IH]; simpl; [done|].
  rewrite filter_cons, IH. unfold written_for at 1.
  destruct (writerow_error W (future_row f)) eqn:Hrow.
  - by rewrite decide_False by done.
  - by rewrite decide_True by done.
Qed.





Lemma handed_over_app acc t rows :
  handed_over acc (t ++ map Wrote rows) = handed_over acc t ++ rows.
Proof.
  revert acc. induction t as [|op t IH]; intros acc; simpl.
  - revert acc. induction rows as [|row rows IH]; intros acc; simpl.
    + by rewrite app_nil_r.
    + by rewrite IH, <- app_assoc.
  - destruct op; apply IH.
Qed.

Lemma handed_over_opened acc t path :
  handed_over acc (t ++ [Opened path]) = [].
Proof.
  revert acc. induction t as [|op t IH]; intros acc; simpl; [done|].
  destruct op; apply IH.
Qed.





End Loop.

(** C2. The claim is right and the code misses it, in two ways.  A row the
    writer refuses is reported and left out: the service answers "pes" with
    a lone surrogate, and of the two words read only "kočka" gets a row.
    And the [except] clause of the loop prints before it writes the error
    row: on a console that cannot encode "kočka" the exception of its
    future is not turned into an error row, it leaves [main] after the row
    of "pes". *)
Theorem main_loses_items :
  read_czech_words (open_csv surrogate_world) (input demo_args)
    = Return [u "pes"; u "kočka"]
  /\ main (H := ascii_runtime) surrogate_world demo_args [] =
       (Return (),
        [Opened (u "czech_translations.csv"); Wrote header;
         Wrote [VStr (u "kočka"); VStr (u "noun (f)"); VStr (u "cat");
                VStr (u "Kočka spí.")];
         Closed])
  /\ main (H := ascii_runtime) narrow_console_world demo_args [] =
       (Raise ProcessorSpec.encode_error,
        [Opened (u "czech_translations.csv"); Wrote header;
         Wrote [VStr (u "pes"); VStr (u "error");
                VStr (u "Error: Request timed out."); VStr []];
         Closed]).
Proof. repeat split; vm_compute; reflexivity. Qed.

Example main_demo_run :
  main (H := ascii_runtime) demo_world demo_args [] =
    (Return (),
     Opened (u "czech_translations.csv") :: Wrote header
       :: map Wrote demo_rows ++ [Closed]).
Proof. vm_compute. reflexivity. Qed.

(** On a full disk the rows are taken and lost at closing. *)
Example main_full_disk_run :
  main (H := ascii_runtime) full_disk_world demo_args [] =
    (Raise no_space,
     Opened (u "czech_translations.csv") :: Wrote header
       :: map Wrote demo_rows ++ [CloseFailed])
  /\ persisted
       (Opened (u "czech_translations.csv") :: Wrote header
          :: map Wrote demo_rows ++ [CloseFailed]) = [].
Proof. split; vm_compute; reflexivity. Qed.



(** C7. The claim is right and the code misses it: the row is handed to the
    writer as it arrives, but nothing makes the file object pass it on, for
    the script never flushes.  After the first of two completions the file
    is not known to hold the header and one row; it is not known to hold
    anything. *)
Theorem rows_not_persisted_as_they_arrive :
  let completed :=
    as_completed demo_world
      (submitted (H := ascii_runtime) demo_world (u "sk-test")
         [u "pes"; u "kočka"]) in
  let t := sink_after (H := ascii_runtime) demo_world
             (u "czech_translations.csv") completed 1 in
  handed_over [] t = header :: map future_row (take 1 completed)
  /\ persisted t = []
  /\ persisted t ≠ header :: map future_row (take 1 completed).
Proof. vm_compute. repeat split; discriminate. Qed.



End PipelineFacts.

(** ** Token Extractor *)

Module ExtractorFacts.
Import Py ReadAnki ExtractorSpec.

(** *** Facts about [strip] and [split] *)

Lemma lstrip_split s :
  exists ws, s = ws ++ lstrip s /\ Forall (fun c => isspace c = true) ws.
Proof.
  induction s as [|c s (ws & Hs & Hws)]; simpl.
  - by exists [].
  - destruct (isspace c) eqn:Hc.
    + exists (c :: ws). split; [by rewrite <- app_comm_cons, <- Hs|].
      by constructor.
    + by exists [].
Qed.

Lemma lstrip_head s c t : lstrip s = c :: t -> isspace c = false.
Proof.
  induction s as [|c' s IH]; simpl; [discriminate|].
  destruct (isspace c') eqn:Hc; [done|]. by intros [= <- _].
Qed.

Lemma lstrip_spaces s : Forall (fun c => isspace c = true) s -> lstrip s = [].
Proof.
  induction 1 as [|c s Hc _ IH]; simpl; [done|]. by rewrite Hc.
Qed.

Lemma lstrip_visible s : Forall (fun c => isspace c = false) s -> lstrip s = s.
Proof. destruct 1 as [|c s Hc _]; simpl; [done|]. by rewrite Hc. Qed.

Lemma rstrip_split s :
  exists ws, s = rstrip s ++ ws /\ Forall (fun c => isspace c = true) ws.
Proof.
  destruct (lstrip_split (rev s)) as (ws & Hs & Hws).
  exists (rev ws). split; [|by apply Forall_rev].
  unfold rstrip. rewrite <- rev_app_distr, <- Hs. by rewrite rev_involutive.
Qed.

Lemma strip_visible s : Forall (fun c => isspace c = false) s -> strip s = s.
Proof.
  intros Hs. unfold strip, rstrip. rewrite (lstrip_visible s Hs).
  rewrite lstrip_visible by by apply Forall_rev.
  apply rev_involutive.
Qed.

Lemma strip_blank line : strip line = [] <-> blank line = true.
Proof.
  unfold blank, strip. split.
  - intros Hstrip.
    destruct (rstrip_split (lstrip line)) as (ws & Hs & Hws).
    rewrite Hstrip in Hs. simpl in Hs.
    destruct (lstrip line) as [|c t] eqn:Hl.
    + destruct (lstrip_split line) as (ws' & Hline & Hws').
      rewrite Hl, app_nil_r in Hline. subst ws'.
      apply Is_true_true, forallb_True.
      eapply Forall_impl; [exact Hws'|]. intros c Hc. by rewrite Hc.
    + apply lstrip_head in Hl. subst ws.
      apply Forall_cons in Hws as [Hc _]. congruence.
  - intros Hblank. apply Is_true_true, forallb_True in Hblank.
    rewrite lstrip_spaces; [done|].
    eapply Forall_impl; [exact Hblank|]. intros c Hc.
    by apply Is_true_true.
Qed.

Lemma take_while_spaces_r p ws :
  Forall (fun c => isspace c = true) ws ->
  take_while visible (p ++ ws) = take_while visible p.
Proof.
  intros Hws. induction p as [|c p IH]; simpl.
  - destruct Hws as [|c ws Hc _]; simpl; [done|].
    unfold visible. by rewrite Hc.
  - by rewrite IH.
Qed.

Lemma take_while_visible s :
  Forall (fun c => isspace c = false) (take_while visible s).
Proof.
  induction s as [|c s IH]; simpl; [constructor|].
  unfold visible at 1. destruct (isspace c) eqn:Hc; simpl; by constructor.
Qed.

Lemma split_from_head cur s :
  cur ++ take_while visible s ≠ [] ->
  exists rest, split_from cur s = (cur ++ take_while visible s) :: rest.
Proof.
  revert cur. induction s as [|c s IH]; intros cur; simpl.
  - rewrite app_nil_r. intros Hcur. destruct cur; [done|]. by eexists.
  - assert (Hv : visible c = negb (isspace c)) by done. rewrite Hv.
    destruct (isspace c); simpl.
    + rewrite app_nil_r. intros Hcur. destruct cur; [done|]. by eexists.
    + intros _. destruct (IH (cur ++ [c])) as (rest & Hrest).
      { by destruct cur. }
      exists rest. by rewrite Hrest, <- app_assoc.
Qed.

(** The first element of [line.strip().split()] is the first token. *)
Lemma first_word_is_first_token line :
  blank line = false ->
  index0 (split (strip line)) = Return (first_token line).
Proof.
  intros Hblank. unfold split, strip, first_token.
  destruct (rstrip_split (lstrip line)) as (ws & Hs & Hws).
  assert (Htok : take_while visible (rstrip (lstrip line))
                 = take_while visible (lstrip line)).
  { rewrite Hs at 2. by rewrite take_while_spaces_r. }
  destruct (lstrip line) as [|c t] eqn:Hl.
  { assert (strip line = []) as Hstrip by (unfold strip; by rewrite Hl).
    apply strip_blank in Hstrip. congruence. }
  destruct (split_from_head [] (rstrip (c :: t))) as (rest & Hrest).
  { simpl. rewrite Htok. simpl. apply lstrip_head in Hl.
    unfold visible. by rewrite Hl. }
  rewrite Hrest. simpl. by rewrite Htok.
Qed.

Lemma without_visible set s :
  Forall (fun c => isspace c = false) s ->
  Forall (fun c => isspace c = false) (without set s).
Proof.
  rewrite !Forall_forall. intros Hs c [_ Hc]%list_elem_of_filter. by apply Hs.
Qed.

Lemma without_all set s : Forall (fun c => c ∈ set) s -> without set s = [].
Proof.
  unfold without. induction 1 as [|c t Hc _ IH]; [done|].
  rewrite filter_cons. rewrite decide_False; [exact IH|].
  intros Hn. by apply Hn.
Qed.

(** *** The loop and the whole run *)

Lemma re_sub_quotes_without s : re_sub_quotes s = without ascii_quotes s.
Proof.
  unfold re_sub_quotes, without. apply list_filter_iff. intros c.
  unfold quote_class, ascii_quotes. set_solver.
Qed.

Lemma add_line_run first_words line :
  add_line first_words line =
    Return (if blank line then first_words
            else first_words ++ [without ascii_quotes (first_token line)]).
Proof.
  unfold add_line. destruct (blank line) eqn:Hblank.
  - apply strip_blank in Hblank. by rewrite Hblank.
  - destruct (strip line) as [|c t] eqn:Hstrip.
    { apply strip_blank in Hstrip. congruence. }
    rewrite <- Hstrip, (first_word_is_first_token line Hblank). simpl.
    rewrite re_sub_quotes_without.
    by rewrite strip_visible
      by apply without_visible, take_while_visible.
Qed.

Lemma read_loop_run first_words lines :
  read_loop first_words lines =
    Return (first_words
            ++ map (fun line => without ascii_quotes (first_token line))
                   (filter (fun line => blank line = false) lines)).
Proof.
  revert first_words. induction lines as [|line lines IH];
    intros first_words; simpl.
  - by rewrite app_nil_r.
  - rewrite add_line_run. simpl. rewrite IH, filter_cons.
    destruct (blank line) eqn:Hblank.
    + by rewrite decide_False by done.
    + rewrite decide_True by done. simpl. by rewrite <- app_assoc.
Qed.

Lemma extract_first_words_run W input_file output_file lines :
  read_lines W input_file = Return lines ->
  write_error W (default default_output output_file) = None ->
  extract_first_words W input_file output_file =
    Finished (default default_output output_file)
             (expected_rows ascii_quotes lines).
Proof.
  intros Hread Hwrite. unfold extract_first_words. rewrite Hread. simpl.
  rewrite read_loop_run, Hwrite. simpl.
  unfold expected_rows. by rewrite map_map.
Qed.

(** C5, as the contract words it, does not hold: the pattern lists the ASCII
    quotes and the backtick only, so the typographic quotes of the two lines
    stay in the rows. *)
Lemma typographic_quotes_are_kept :
  extract_first_words (holding typographic_lines) (u "deck.txt") None
    = Finished (u "result.csv") [[u "“Ahoj”"]; [u "‘Čau’"]]
  /\ expected_rows (ascii_quotes ++ typographic_quotes) typographic_lines
     = [[u "Ahoj"]; [u "Čau"]]
  /\ extract_first_words (holding typographic_lines) (u "deck.txt") None
     ≠ Finished (u "result.csv") [[u "Ahoj"]; [u "Čau"]].
Proof. vm_compute. repeat split; discriminate. Qed.

(** C5, amended.  For every input file that can be read (and an output that
    can be written) the extractor writes, for each line that is not blank and
    in the order of the lines, one row of one cell: the first
    whitespace-delimited token of the line without its ASCII double quotes,
    ASCII single quotes and backticks.  The cell has no whitespace around it
    and blank lines give no row. *)
Theorem extract_first_words_rows (W : World) (input_file : pystr)
    (output_file : option pystr) (lines : list pystr) :
  read_lines W input_file = Return lines ->
  write_error W (default default_output output_file) = None ->
  exists rows,
    extract_first_words W input_file output_file
      = Finished (default default_output output_file) rows
    /\ rows = expected_rows ascii_quotes lines
    /\ length rows = length (filter (fun line => blank line = false) lines)
    /\ Forall (fun row =>
                 exists cell,
                   row = [cell] /\ strip cell = cell
                   /\ forall c, c ∈ ascii_quotes -> c ∉ cell) rows.
Proof.
  intros Hread Hwrite. exists (expected_rows ascii_quotes lines).
  split; [by apply extract_first_words_run|]. split; [done|]. split.
  - unfold expected_rows. by rewrite length_map.
  - unfold expected_rows. apply Forall_forall. intros row Hrow.
    apply list_elem_of_fmap in Hrow as (line & -> & _).
    eexists. split; [done|]. split.
    + apply strip_visible, without_visible, take_while_visible.
    + intros c Hc Hin. apply list_elem_of_filter in Hin as [Hnot _]. done.
Qed.

Lemma extract_first_words_rows_witness :
  exists rows,
    extract_first_words (holding ascii_lines) (u "deck.txt") None
      = Finished default_output rows
    /\ rows = [[u "Ahoj"]; [u "Čau"]].
Proof.
  destruct (extract_first_words_rows (holding ascii_lines) (u "deck.txt")
              None ascii_lines eq_refl eq_refl)
    as (rows & Hrun & Hrows & _).
  exists rows. split.
  - vm_compute in Hrun |- *. exact Hrun.
  - etransitivity; [exact Hrows|]. vm_compute. reflexivity.
Defined.

(** C10. Quotes are removed wherever they stand in the first token, so a
    line that is not blank and whose first token is made of ASCII quotes and
    backticks alone gives a row with an empty cell, in its place among the
    rows of the other lines. *)
Theorem quotes_removed_at_every_position (W : World) (input_file : pystr)
    (output_file : option pystr) (before after : list pystr) (line : pystr) :
  read_lines W input_file = Return (before ++ line :: after) ->
  write_error W (default default_output output_file) = None ->
  blank line = false ->
  exists cleaned,
    extract_first_words W input_file output_file
      = Finished (default default_output output_file)
          (expected_rows ascii_quotes before
           ++ [cleaned] :: expected_rows ascii_quotes after)
    /\ cleaned = filter (fun c => c ∉ ascii_quotes) (first_token line)
    /\ (forall c, c ∈ ascii_quotes -> c ∉ cleaned)
    /\ (Forall (fun c => c ∈ ascii_quotes) (first_token line) ->
          cleaned = []).
Proof.
  intros Hread Hwrite Hblank.
  exists (without ascii_quotes (first_token line)).
  split; [|split; [done|split]].
  - rewrite (extract_first_words_run W _ _ _ Hread Hwrite).
    unfold expected_rows. rewrite filter_app, filter_cons.
    rewrite decide_True by done. by rewrite map_app.
  - intros c Hc Hin. apply list_elem_of_filter in Hin as [Hnot _]. done.
  - apply without_all.
Qed.

Lemma quotes_removed_at_every_position_witness :
  exists cleaned,
    extract_first_words (holding quoted_lines) (u "deck.txt") None
      = Finished default_output [[u "itsx"]; [cleaned]]
    /\ cleaned = [].
Proof.
  destruct (quotes_removed_at_every_position (holding quoted_lines)
              (u "deck.txt") None [u "it's`x rest" ++ [10%N]] []
              ([34; 39; 96; 34; 32]%N ++ u "word" ++ [10%N])
              eq_refl eq_refl eq_refl)
    as (cleaned & Hrun & _ & _ & Hempty).
  exists cleaned. split.
  - etransitivity; [exact Hrun|]. vm_compute. reflexivity.
  - apply Hempty. vm_compute. repeat constructor.
Defined.

(** C8. The claim is right about what the command is for and the code
    misses it: the file defines [main] and never calls it, so the command
    reads nothing and writes nothing, with or without a second argument,
    and ends with status 0.  Called by hand, [main] does what the claim says
    of a run without a second argument: it writes "result.csv". *)
Theorem script_never_calls_main :
  script (holding ascii_lines) [u "read_anki.py"; u "deck.txt"] = Exit 0
  /\ script (holding ascii_lines) [u "read_anki.py"; u "deck.txt"]
     ≠ Finished (u "result.csv") [[u "Ahoj"]; [u "Čau"]]
  /\ script (holding ascii_lines)
       [u "read_anki.py"; u "deck.txt"; u "out.csv"] = Exit 0
  /\ main (holding ascii_lines) [u "read_anki.py"; u "deck.txt"]
     = Finished (u "result.csv") [[u "Ahoj"]; [u "Čau"]].
Proof. vm_compute. repeat split; discriminate. Qed.

(** [main] passes on the input path alone, so a second argument would change
    nothing. *)
Example second_argument_is_ignored :
  main (holding ascii_lines) [u "read_anki.py"; u "deck.txt"; u "out.csv"]
    = Finished (u "result.csv") [[u "Ahoj"]; [u "Čau"]]
  /\ main (holding ascii_lines) [u "read_anki.py"; u "deck.txt"; u "out.csv"]
     ≠ Finished (u "out.csv") [[u "Ahoj"]; [u "Čau"]].
Proof. vm_compute. split; [reflexivity|discriminate]. Qed.

(** X26. The function [main], once it is called, takes the input path from
    the command line and nothing else: what follows the path is ignored and
    a call that writes anything writes "result.csv".  It is the function
    [extract_first_words] that takes an output path, "result.csv" when the
    caller leaves it out. *)
Theorem output_path_of_main (W : World) (prog input_file : pystr)
    (rest : list pystr) :
  main W (prog :: input_file :: rest) = extract_first_words W input_file None
  /\ (forall path rows,
        main W (prog :: input_file :: rest) = Finished path rows ->
        path = u "result.csv")
  /\ (forall output_file path rows,
        extract_first_words W input_file output_file = Finished path rows ->
        path = match output_file with
               | Some out => out
               | None => u "result.csv"
               end).
Proof.
  assert (Hpath : forall output_file path rows,
            extract_first_words W input_file output_file = Finished path rows ->
            path = default default_output output_file).
  { intros output_file path rows. unfold extract_first_words.
    destruct (_ ← read_lines W input_file; read_loop [] _); [|discriminate].
    destruct (write_error W _); [discriminate|]. by intros [= <- _]. }
  split; [done|]. split.
  - intros path rows Hmain. rewrite (Hpath None path rows Hmain).
    vm_compute. reflexivity.
  - intros output_file path rows Hrun.
    rewrite (Hpath output_file path rows Hrun). by destruct output_file.
Qed.

Lemma output_path_of_main_witness :
  main (holding ascii_lines) [u "read_anki.py"; u "deck.txt"; u "out.csv"]
    = extract_first_words (holding ascii_lines) (u "deck.txt") None
  /\ default_output = u "result.csv".
Proof.
  destruct (output_path_of_main (holding ascii_lines) (u "read_anki.py")
              (u "deck.txt") [u "out.csv"]) as (Hmain & Hpath & _).
  split; [exact Hmain|].
  apply (Hpath default_output (expected_rows ascii_quotes ascii_lines)).
  vm_compute. reflexivity.
Defined.

End ExtractorFacts.

(** ** More about [main.py] *)

Module MainPyFacts.
Import Py Translator ReaderSpec ReaderFacts ProcessorSpec ProcessorFacts.
Import PipelineSpec PipelineFacts ExtractorSpec ExtractorFacts MainPySpec.

(** *** Trimming twice *)

Lemma lstrip_idem s : lstrip (lstrip s) = lstrip s.
Proof.
  destruct (lstrip s) as [|c t] eqn:Hs; [done|].
  apply lstrip_head in Hs. simpl. by rewrite Hs.
Qed.

Lemma rstrip_idem s : rstrip (rstrip s) = rstrip s.
Proof. unfold rstrip. by rewrite rev_involutive, lstrip_idem. Qed.

Lemma lstrip_strip s : lstrip (strip s) = strip s.
Proof.
  unfold strip. destruct (lstrip s) as [|c t] eqn:Hs; [done|].
  apply lstrip_head in Hs.
  destruct (rstrip_split (c :: t)) as (ws & Hsplit & Hws).
  destruct (rstrip (c :: t)) as [|c' p]; [|].
  - simpl in Hsplit. subst ws. apply Forall_cons in Hws as [Hc _]. congruence.
  - injection Hsplit as <- _. simpl. by rewrite Hs.
Qed.

Lemma strip_idem s : strip (strip s) = strip s.
Proof.
  unfold strip at 1. rewrite lstrip_strip. unfold strip. apply rstrip_idem.
Qed.

(** *** Source Reader *)

Lemma length_dedup_first l : length (dedup_first l) <= length l.
Proof.
  induction l as [|x l IH]; simpl; [done|].
  pose proof (length_filter (fun y => y ≠ x) (dedup_first l)). lia.
Qed.

Lemma length_first_columns rows : length (first_columns rows) <= length rows.
Proof.
  unfold first_columns. induction rows as [|row rows IH]; csimpl; [done|].
  destruct (first_column row); simpl; lia.
Qed.

Lemma dedup_first_NoDup l : NoDup l -> dedup_first l = l.
Proof.
  induction 1 as [|x l Hx _ IH]; simpl; [done|]. rewrite IH. f_equal.
  clear IH. induction l as [|y l IH]; [done|].
  rewrite filter_cons. apply not_elem_of_cons in Hx as [Hne Hx].
  rewrite decide_True by done. by rewrite IH.
Qed.

Lemma first_columns_one_column words :
  Forall (fun w => w ≠ [] /\ strip w = w) words ->
  first_columns (one_column words) = words.
Proof.
  unfold first_columns, one_column.
  induction 1 as [|w words [Hne Hw] _ IH]; csimpl; [done|].
  rewrite Hw, IH. by destruct w.
Qed.

Lemma dedup_first_columns_trimmed rows :
  Forall (fun w => w ≠ [] /\ strip w = w) (dedup_first (first_columns rows)).
Proof.
  apply Forall_forall. intros w Hw.
  apply elem_of_dedup_first, elem_of_first_columns in Hw
    as (first & rest & _ & Hstrip & Hne).
  split; [done|]. rewrite <- Hstrip. apply strip_idem.
Qed.

Lemma read_czech_words_inv open_csv input_file words :
  read_czech_words open_csv input_file = Return words ->
  exists rows,
    open_csv input_file = Return rows
    /\ words = dedup_first (first_columns rows).
Proof.
  unfold read_czech_words. destruct (open_csv input_file) as [rows|e];
    [|discriminate].
  simpl. rewrite foldl_add_row, filter_not_in_nil. intros [= <-]. by exists rows.
Qed.

(** X1. Every word [read_czech_words] returns is non-empty and has no
    whitespace around it, and there are no more words than rows. *)
Theorem read_czech_words_trimmed (open_csv : pystr -> py (list (list pystr)))
    (input_file : pystr) (rows : list (list pystr)) (words : list pystr) :
  open_csv input_file = Return rows ->
  read_czech_words open_csv input_file = Return words ->
  Forall (fun w => w ≠ [] /\ strip w = w) words
  /\ length words <= length rows.
Proof.
  intros Hopen Hread.
  destruct (read_czech_words_inv _ _ _ Hread) as (rows' & Hopen' & ->).
  rewrite Hopen in Hopen'. injection Hopen' as <-. split.
  - apply dedup_first_columns_trimmed.
  - pose proof (length_dedup_first (first_columns rows)).
    pose proof (length_first_columns rows). lia.
Qed.

Lemma read_czech_words_trimmed_witness :
  Forall (fun w => w ≠ [] /\ strip w = w) [u "pes"; u "kočka"]
  /\ (2 <= 4)%nat.
Proof.
  apply (read_czech_words_trimmed
           (fun _ => Return [[u " pes "; u "dog"]; []; [u "kočka  "];
                             [u "pes"]])
           (u "czech_words.csv")
           [[u " pes "; u "dog"]; []; [u "kočka  "]; [u "pes"]]
           [u "pes"; u "kočka"]).
  - reflexivity.
  - vm_compute. reflexivity.
Defined.

(** X2. Only the first field of a row counts: a file cut down to its first
    column gives the same words, and the same failure when it cannot be
    read. *)
Theorem read_czech_words_first_field_only
    (open_csv : pystr -> py (list (list pystr))) (input_file : pystr) :
  read_czech_words (fun path => first_fields <$> open_csv path) input_file
  = read_czech_words open_csv input_file.
Proof.
  unfold read_czech_words.
  destruct (open_csv input_file) as [rows|e]; [|done]. simpl. f_equal.
  unfold first_fields. generalize (@nil pystr) as acc.
  induction rows as [|row rows IH]; intros acc; simpl; [done|].
  rewrite IH. f_equal. by destruct row.
Qed.

(** X3. Reading is stable: the words read from a file, written out one to a
    row and read again, come back unchanged and in the same order. *)
Theorem read_czech_words_stable (open_csv : pystr -> py (list (list pystr)))
    (input_file again : pystr) (words : list pystr) :
  read_czech_words open_csv input_file = Return words ->
  read_czech_words (fun _ => Return (one_column words)) again = Return words.
Proof.
  intros Hread.
  destruct (read_czech_words_inv _ _ _ Hread) as (rows & _ & ->).
  unfold read_czech_words. simpl.
  rewrite foldl_add_row, filter_not_in_nil. f_equal.
  rewrite first_columns_one_column by apply dedup_first_columns_trimmed.
  apply dedup_first_NoDup, NoDup_dedup_first.
Qed.

Lemma read_czech_words_stable_witness :
  read_czech_words (fun _ => Return (one_column [u "pes"; u "kočka"]))
    (u "again.csv")
  = Return [u "pes"; u "kočka"].
Proof.
  apply (read_czech_words_stable
           (fun _ => Return [[u " pes "; u "dog"]; []; [u "kočka  "];
                             [u "pes"]])
           (u "czech_words.csv")).
  vm_compute. reflexivity.
Defined.

(** X20. Rows added at the end of the input never disturb the words read
    from the rows before them: those words come first, in the same order,
    in the longer list. *)
Theorem read_czech_words_grows (open_csv : pystr -> py (list (list pystr)))
    (input_file : pystr) (rows more : list (list pystr)) (words : list pystr) :
  open_csv input_file = Return rows ->
  read_czech_words open_csv input_file = Return words ->
  exists longer,
    read_czech_words (fun _ => Return (rows ++ more)) input_file
      = Return longer
    /\ words `prefix_of` longer.
Proof.
  intros Hopen Hread.
  destruct (read_czech_words_inv _ _ _ Hread) as (rows' & Hopen' & ->).
  rewrite Hopen in Hopen'. injection Hopen' as <-.
  eexists. split; [done|]. simpl.
  rewrite foldl_app, (foldl_add_row [] rows), filter_not_in_nil.
  rewrite foldl_add_row. by eexists.
Qed.

Lemma read_czech_words_grows_witness :
  exists longer,
    read_czech_words
      (fun _ => Return ([[u "pes"]; [u "kočka"]] ++ [[u "pes"]; [u "dům"]]))
      (u "czech_words.csv") = Return longer
    /\ [u "pes"; u "kočka"] `prefix_of` longer.
Proof.
  apply (read_czech_words_grows (fun _ => Return [[u "pes"]; [u "kočka"]])
           (u "czech_words.csv") [[u "pes"]; [u "kočka"]]
           [[u "pes"]; [u "dům"]] [u "pes"; u "kočka"]).
  - reflexivity.
  - vm_compute. reflexivity.
Defined.

(** *** Item Processor *)

(** X4. On the success path the gender, the translation and the example of
    the record are the values the response holds under these keys, whatever
    they are and whatever the word type; a missing gender is [None], a
    missing translation or example the empty string. *)
Theorem translate_word_fields_from_response `{Runtime} (out : console)
    (svc : service) (w openai_api_key : pystr) (r : TranslationResult) :
  translate_word_try out svc w openai_api_key = Return r ->
  exists d,
    svc w openai_api_key = Return (VDict d)
    /\ gender r = default VNone (d !! u "gender")
    /\ translation r = default (VStr []) (d !! u "translation")
    /\ example r = default (VStr []) (d !! u "example").
Proof.
  intros Htry.
  destruct (translate_word_try_inv out svc w openai_api_key r Htry)
    as (d & wt & Hsvc & Hout & Hwt).
  exists d. split; [done|].
  rewrite (translate_word_try_dict out svc w openai_api_key d wt Hsvc Hout Hwt)
    in Htry.
  by injection Htry as <-.
Qed.

Lemma translate_word_fields_from_response_witness :
  exists d,
    answers verb_response (u "spát") (u "sk-test") = Return (VDict d)
    /\ default VNone (d !! u "gender") = VStr (u "f").
Proof.
  destruct (translate_word_fields_from_response (H := ascii_runtime) quiet
              (answers verb_response) (u "spát") (u "sk-test") _ eq_refl)
    as (d & Hd & Hg & _).
  exists d. split; [exact Hd|]. rewrite <- Hg. vm_compute. reflexivity.
Defined.

(** X5. A response that is a JSON object without any of the five keys is not
    a failure: once the progress message is printed, the record has the
    input word, an empty word type, no gender and empty translation and
    example. *)
Theorem translate_word_missing_keys `{Runtime} (out : console)
    (svc : service) (w openai_api_key : pystr) (d : gmap pystr pyval) :
  svc w openai_api_key = Return (VDict d) ->
  out (u "Translated: " ++ w) = None ->
  d !! u "word" = None ->
  d !! u "word_type" = None ->
  d !! u "gender" = None ->
  d !! u "translation" = None ->
  d !! u "example" = None ->
  translate_word out svc w openai_api_key =
    Return {| word := VStr w;
              word_type := VStr [];
              gender := VNone;
              translation := VStr [];
              example := VStr [] |}.
Proof.
  intros Hsvc Hout Hword Hwt Hg Htr Hex.
  apply translate_word_success.
  rewrite (translate_word_try_dict out svc w openai_api_key d []) by
    (by rewrite ?Hwt).
  unfold gender_of. by rewrite Hword, Hg, Htr, Hex.
Qed.

Lemma translate_word_missing_keys_witness :
  translate_word (H := ascii_runtime) quiet (answers ∅) (u "pes")
    (u "sk-test") =
    Return {| word := VStr (u "pes");
              word_type := VStr [];
              gender := VNone;
              translation := VStr [];
              example := VStr [] |}.
Proof.
  apply (translate_word_missing_keys (H := ascii_runtime) quiet (answers ∅)
           (u "pes") (u "sk-test") ∅); reflexivity.
Defined.

(** X22. When the console takes its two messages, [translate_word] returns
    a record whatever the service does.  When a step of its [try] block
    fails (the service call or the parsing raises, the parsed response is
    not a dict, its word type is not a string), the record holds the input
    word, the type "error", no gender, the text "Error: " followed by the
    description of the failure, and an empty example. *)
Theorem translate_word_error_record `{Runtime} (out : console)
    (svc : service) (w openai_api_key : pystr) :
  (forall message, out message = None) ->
  exists r,
    translate_word out svc w openai_api_key = Return r
    /\ match svc w openai_api_key with
       | Raise e =>
           r = {| word := VStr w; word_type := VStr (u "error");
                  gender := VNone;
                  translation := VStr (u "Error: " ++ exn_str e);
                  example := VStr [] |}
       | Return (VDict d) =>
           match default (VStr []) (d !! u "word_type") with
           | VStr _ => translate_word_try out svc w openai_api_key = Return r
           | v =>
               r = {| word := VStr w; word_type := VStr (u "error");
                      gender := VNone;
                      translation :=
                        VStr (u "Error: "
                              ++ exn_str (attribute_error v (u "lower")));
                      example := VStr [] |}
           end
       | Return v =>
           r = {| word := VStr w; word_type := VStr (u "error");
                  gender := VNone;
                  translation :=
                    VStr (u "Error: "
                          ++ exn_str (attribute_error v (u "get")));
                  example := VStr [] |}
       end.
Proof.
  intros Hquiet.
  pose proof (translate_word_try_cases out svc w openai_api_key) as Hcases.
  assert (Hfail : forall e,
            translate_word_try out svc w openai_api_key = Raise e ->
            translate_word out svc w openai_api_key
            = Return (error_result w e)).
  { intros e He. rewrite (translate_word_handled out svc w openai_api_key e He).
    by rewrite Hquiet. }
  destruct (svc w openai_api_key) as [v|e].
  2: { eexists. split; [by apply Hfail|done]. }
  rewrite Hquiet in Hcases.
  destruct v; try (eexists; split; [by apply Hfail|done]).
  destruct (default (VStr []) (d !! u "word_type"));
    try (eexists; split; [by apply Hfail|done]).
  destruct Hcases as [r Hr]. exists r.
  split; [by apply translate_word_success|done].
Qed.

Lemma translate_word_error_record_witness :
  translate_word (H := ascii_runtime) quiet demo_service (u "pes")
    (u "sk-test")
  = Return {| word := VStr (u "pes"); word_type := VStr (u "error");
              gender := VNone;
              translation := VStr (u "Error: Request timed out.");
              example := VStr [] |}.
Proof.
  destruct (translate_word_error_record (H := ascii_runtime) quiet
              demo_service (u "pes") (u "sk-test"))
    as (r & Hr & Hcase).
  - intros message. reflexivity.
  - etransitivity; [exact Hr|]. vm_compute in Hcase. rewrite Hcase.
    vm_compute. reflexivity.
Defined.

(** X23. When the console takes its messages and the input word is not
    empty, the record of a failed item is fully populated; the record of an
    item that went through is fully populated whenever the response holds,
    under "word" a non-empty string or nothing, and under "translation" and
    "example" a string or nothing.  The word type is a string in any
    case. *)
Theorem translate_word_record_shape `{Runtime} (out : console)
    (svc : service) (w openai_api_key : pystr) :
  (forall message, out message = None) ->
  w ≠ [] ->
  exists r,
    translate_word out svc w openai_api_key = Return r
    /\ is_str (word_type r) = true
    /\ match translate_word_try out svc w openai_api_key with
       | Raise e => fully_populated r
       | Return _ =>
           exists d,
             svc w openai_api_key = Return (VDict d)
             /\ (nonempty_or_missing d (u "word") ->
                 str_or_missing d (u "translation") ->
                 str_or_missing d (u "example") ->
                 fully_populated r)
       end.
Proof.
  intros Hquiet Hw.
  destruct (translate_word_try out svc w openai_api_key) as [r|e] eqn:Htry.
  - exists r. split; [by apply translate_word_success|].
    destruct (translate_word_try_inv out svc w openai_api_key r Htry)
      as (d & wt & Hsvc & Hout & Hwt).
    rewrite (translate_word_try_dict out svc w openai_api_key d wt Hsvc Hout
               Hwt) in Htry.
    injection Htry as <-. simpl. split.
    { by destruct (bool_decide _ && truthy _). }
    exists d. split; [done|].
    unfold nonempty_or_missing, str_or_missing, fully_populated. simpl.
    intros Hword Htr Hex. repeat split.
    + destruct (d !! u "word"); simpl; [done|by destruct w].
    + by destruct (bool_decide _ && truthy _).
    + by destruct (d !! u "translation").
    + by destruct (d !! u "example").
  - exists (error_result w e). split.
    { rewrite (translate_word_handled out svc w openai_api_key e Htry).
      by rewrite Hquiet. }
    split; [done|]. split; [|done]. by destruct w.
Qed.

Lemma translate_word_record_shape_witness :
  exists r,
    translate_word (H := ascii_runtime) quiet (answers noun_response)
      (u "kočka") (u "sk-test") = Return r
    /\ fully_populated r.
Proof.
  destruct (translate_word_record_shape (H := ascii_runtime) quiet
              (answers noun_response) (u "kočka") (u "sk-test"))
    as (r & Hr & _ & Hfull).
  - intros message. reflexivity.
  - vm_compute. discriminate.
  - exists r. split; [exact Hr|].
    vm_compute in Hfull. destruct Hfull as (d & Hd & Hfull).
    injection Hd as <-. apply Hfull; vm_compute; reflexivity.
Defined.

(** *** Result Sink *)


(** *** The run as a whole *)

Lemma io_bind_say_refused `{Runtime} {B} (W : World) message e
    (k : () -> io B) t :
  print_error W message = Some e ->
  io_bind (say W message) k t = (Raise e, t).
Proof. intros Hno. unfold io_bind. by rewrite (say_refused W _ e). Qed.

(** [main] up to the opening of the output. *)
Lemma main_setup `{Runtime} (W : World) (args : Args) (t : list file_op) :
  main W args t =
    match resolve_key W args with
    | None => (Raise no_key_error, t)
    | Some k =>
        match print_error W (message_reading (input args)) with
        | Some e => (Raise e, t)
        | None =>
            match open_csv W (input args) with
            | Raise e => (Raise e, t)
            | Return rows =>
                let words := dedup_first (first_columns rows) in
                match print_error W (message_found (length words)) with
                | Some e => (Raise e, t)
                | None =>
                    match print_error W (message_using (workers args)) with
                    | Some e => (Raise e, t)
                    | None => after_setup W args k words t
                    end
                end
            end
        end
    end.
Proof.
  unfold main.
  destruct (resolve_key W args) as [k|]; [|done].
  unfold mbind, io_mbind.
  destruct (print_error W (message_reading (input args))) as [e|] eqn:Hp1.
  { by rewrite (io_bind_say_refused W _ e). }
  rewrite io_bind_say by done.
  destruct (open_csv W (input args)) as [rows|e] eqn:Hin.
  2: { apply io_bind_raise. unfold read_czech_words. by rewrite Hin. }
  rewrite (io_bind_return _ _ _ _ (read_czech_words_run W _ _ Hin)).
  simpl.
  destruct (print_error W (message_found _)) as [e|] eqn:Hp2.
  { by rewrite (io_bind_say_refused W _ e). }
  rewrite io_bind_say by done.
  destruct (print_error W (message_using _)) as [e|] eqn:Hp3.
  { by rewrite (io_bind_say_refused W _ e). }
  by rewrite io_bind_say by done.
Qed.

(** Statements that only hand rows to the writer. *)
Lemma appends_rows_say `{Runtime} (W : World) message :
  appends_rows (say W message).
Proof. intros t. exists []. by rewrite app_nil_r. Qed.

Lemma appends_rows_ret {A} (a : A) : appends_rows (io_ret a).
Proof. intros t. exists []. by rewrite app_nil_r. Qed.

Lemma appends_rows_lift {A} (m : py A) : appends_rows (lift m).
Proof. intros t. exists []. by rewrite app_nil_r. Qed.

Lemma appends_rows_bind {A B} (m : io A) (k : A -> io B) :
  appends_rows m -> (forall a, appends_rows (k a)) ->
  appends_rows (io_bind m k).
Proof.
  intros Hm Hk t. destruct (Hm t) as (rows1 & Ht1 & Hrows1).
  unfold io_bind. destruct (m t) as [[a|e] t1]; simpl in *; subst t1.
  - destruct (Hk a (t ++ map Wrote rows1)) as (rows2 & Ht2 & Hrows2).
    exists (rows1 ++ rows2). rewrite Ht2, map_app, <- app_assoc.
    split; [done|]. by apply Forall_app.
  - by exists rows1.
Qed.

Lemma appends_rows_write `{Runtime} (W : World) (result : TranslationResult) :
  appends_rows (write_result_to_csv W result).
Proof.
  intros t. rewrite write_result_to_csv_run.
  destruct (writerow_error W (row_of result)); simpl.
  - exists []. by rewrite app_nil_r.
  - exists [row_of result]. split; [done|]. by repeat constructor.
Qed.

Lemma appends_rows_on_error `{Runtime} (W : World) w n e :
  appends_rows (on_future_error W w n e).
Proof.
  unfold on_future_error, mbind, io_mbind.
  apply appends_rows_bind; [apply appends_rows_say|]. intros _.
  apply appends_rows_bind; [apply appends_rows_write|]. intros _.
  apply appends_rows_ret.
Qed.

Lemma appends_rows_then {A B} (m : io A) (k : py A -> io B) t :
  appends_rows m -> (forall r, appends_rows (k r)) ->
  exists rows,
    (k (m t).1 (m t).2).2 = t ++ map Wrote rows
    /\ Forall (fun row => length row = 4%nat) rows.
Proof.
  intros Hm Hk. destruct (Hm t) as (rows1 & Ht1 & Hrows1).
  destruct (Hk (m t).1 (m t).2) as (rows2 & Ht2 & Hrows2).
  exists (rows1 ++ rows2). rewrite Ht2, Ht1, map_app, <- app_assoc.
  split; [done|]. by apply Forall_app.
Qed.

Lemma appends_rows_process `{Runtime} (W : World) total n (f : future) :
  appends_rows (process_future W total n f).
Proof.
  destruct f as [w outcome]. intros t. unfold process_future.
  set (m := (result ← lift outcome; write_result_to_csv W result)).
  pose proof (appends_rows_then m
    (fun r =>
       match r with
       | Return _ =>
           fun t' =>
             match say W (message_completed w (S n) total) t' with
             | (Raise e, t'') => on_future_error W w (S n) e t''
             | (Return _, t'') => (Return (S n), t'')
             end
       | Raise e => on_future_error W w n e
       end) t) as Hthen.
  destruct Hthen as (rows & Ht & Hrows).
  - apply appends_rows_bind; [apply appends_rows_lift|].
    intros result. apply appends_rows_write.
  - intros [u0|e]; [|apply appends_rows_on_error].
    intros t'. unfold say, lift.
    destruct (print (print_error W) _) as [u1|e].
    + exists []. by rewrite app_nil_r.
    + apply appends_rows_on_error.
  - exists rows. split; [|done]. rewrite <- Ht.
    by destruct (m t) as [[u0|e] t'].
Qed.

Lemma appends_rows_loop `{Runtime} (W : World) total fs n :
  appends_rows (for_each (process_future W total) n fs).
Proof.
  revert n. induction fs as [|f fs IH]; intros n; simpl.
  - apply appends_rows_ret.
  - apply appends_rows_bind; [apply appends_rows_process|done].
Qed.

(** What the run does to the file once the output can be opened. *)
Lemma after_setup_session `{Runtime} (W : World) (args : Args) (k : pystr)
    (words : list pystr) (t : list file_op) :
  open_error W (output args) = None ->
  exists rows last,
    (after_setup W args k words t).2
      = t ++ Opened (output args) :: map Wrote rows ++ [last]
    /\ (last = Closed \/ last = CloseFailed)
    /\ (rows = [] \/ exists rest, rows = header :: rest)
    /\ Forall (fun row => length row = 4%nat) rows.
Proof.
  intros Hout. unfold after_setup, mbind, io_mbind.
  set (body := io_bind (writerow W header) _).
  assert (Hbody : exists rows,
            (body (t ++ [Opened (output args)])).2
              = (t ++ [Opened (output args)]) ++ map Wrote rows
            /\ (rows = [] \/ exists rest, rows = header :: rest)
            /\ Forall (fun row => length row = 4%nat) rows).
  { unfold body, io_bind at 1, writerow.
    destruct (writerow_error W header).
    { exists []. by rewrite app_nil_r; repeat split; [left|]. }
    unfold io_bind at 1, thread_pool_executor.
    destruct (workers args <=? 0)%Z.
    { exists [header]. repeat split; [right; by eexists|].
      by repeat constructor. }
    unfold mret at 1, io_mret, io_ret at 1.
    destruct (appends_rows_bind
                (for_each (process_future W (length words)) 0%nat
                   (as_completed W (submitted W k words)))
                (fun _ => io_ret ())
                (appends_rows_loop W _ _ _)
                (fun _ => appends_rows_ret ())
                ((t ++ [Opened (output args)]) ++ [Wrote header]))
      as (rows & Hrows & Hlen).
    exists (header :: rows).
    split; [|split; [right; by eexists|by constructor]].
    rewrite Hrows. simpl. by rewrite <- !app_assoc. }
  destruct Hbody as (rows & Hrows & Hhead & Hlen).
  assert (Hwith : exists last,
            (with_open W (output args) body t).2
              = t ++ Opened (output args) :: map Wrote rows ++ [last]
            /\ (last = Closed \/ last = CloseFailed)).
  { unfold with_open. rewrite Hout.
    destruct (body (t ++ [Opened (output args)])) as [r t'].
    simpl in Hrows. subst t'.
    destruct (handed_over [] _) as [|row rest].
    - exists Closed. simpl. rewrite <- !app_assoc. by split; [|left].
    - destruct (flush_error W (output args) (row :: rest)).
      + exists CloseFailed. simpl. rewrite <- !app_assoc. by split; [|right].
      + exists Closed. simpl. rewrite <- !app_assoc. by split; [|left]. }
  destruct Hwith as (last & Hwith & Hlast).
  exists rows, last. split; [|done]. rewrite <- Hwith.
  unfold io_bind. destruct (with_open W (output args) body t) as [[u0|e] t'];
    [|done].
  unfold say, lift. simpl. by destruct (print (print_error W) _).
Qed.

(** [main] in every case, when the console takes every message. *)
Lemma main_cases `{Runtime} (W : World) (args : Args) (t : list file_op) :
  console_accepts W ->
  main W args t =
    match resolve_key W args with
    | None => (Raise no_key_error, t)
    | Some k =>
        match open_csv W (input args) with
        | Raise e => (Raise e, t)
        | Return rows =>
            match open_error W (output args) with
            | Some e => (Raise e, t)
            | None =>
                match writerow_error W header with
                | Some e => (Raise e, t ++ [Opened (output args); Closed])
                | None =>
                    let kept :=
                      if (workers args <=? 0)%Z then []
                      else accepted W
                             (map future_row
                                (as_completed W
                                   (submitted W k
                                      (dedup_first (first_columns rows))))) in
                    match flush_error W (output args) (header :: kept) with
                    | Some e =>
                        (Raise e,
                         t ++ Opened (output args)
                           :: map Wrote (header :: kept) ++ [CloseFailed])
                    | None =>
                        (if (workers args <=? 0)%Z then Raise pool_error
                         else Return (),
                         t ++ Opened (output args)
                           :: map Wrote (header :: kept) ++ [Closed])
                    end
                end
            end
        end
    end.
Proof.
  intros Hquiet. rewrite main_setup.
  destruct (resolve_key W args) as [k|]; [|done].
  rewrite Hquiet.
  destruct (open_csv W (input args)) as [rows|e]; [|done].
  simpl. rewrite !Hquiet.
  unfold after_setup, mbind, io_mbind. unfold io_bind at 1, with_open.
  destruct (open_error W (output args)) as [e|]; [done|].
  unfold io_bind at 1, writerow.
  destruct (writerow_error W header) as [e|].
  { simpl. rewrite handed_over_opened. by rewrite <- app_assoc. }
  unfold io_bind at 1, thread_pool_executor.
  destruct (workers args <=? 0)%Z.
  { unfold io_raise.
    pose proof (handed_over_app [] (t ++ [Opened (output args)]) [header])
      as Hh.
    rewrite handed_over_opened in Hh. simpl in Hh. rewrite Hh.
    destruct (flush_error W (output args) [header]);
      simpl; by rewrite <- !app_assoc. }
  unfold mret at 1, io_mret, io_ret.
  fold (submitted W k (dedup_first (first_columns rows))).
  unfold io_bind at 1. rewrite for_each_process_run by done.
  rewrite written_for_concat.
  set (kept := accepted W _).
  pose proof (handed_over_app [] (t ++ [Opened (output args)])
                (header :: kept)) as Hh.
  rewrite handed_over_opened in Hh. simpl in Hh.
  replace (((t ++ [Opened (output args)]) ++ [Wrote header])
           ++ map Wrote kept)
    with ((t ++ [Opened (output args)]) ++ Wrote header :: map Wrote kept)
    by (by rewrite <- !app_assoc).
  unfold mret, io_mret, io_ret. rewrite Hh.
  destruct (flush_error W (output args) (header :: kept)).
  { simpl. by rewrite <- !app_assoc. }
  rewrite io_bind_say by apply Hquiet. rewrite say_accepted by apply Hquiet.
  simpl. by rewrite <- !app_assoc.
Qed.

Lemma app_eq_self {A} (t ops : list A) : t ++ ops = t -> ops = [].
Proof.
  intros Heq. apply (f_equal length) in Heq. rewrite length_app in Heq.
  destruct ops; [done|]. simpl in Heq. lia.
Qed.

Lemma future_row_length (f : future) : length (future_row f) = 4%nat.
Proof. done. Qed.

(** X7. When the console takes every message and the file closes without
    an error, [main] ends without an exception exactly when a key is found,
    the input can be read, the output can be opened, the writer takes the
    header and the worker bound is at least one.  Then neither a failed
    translation nor a refused row makes it raise. *)
Theorem main_returns_iff `{Runtime} (W : World) (args : Args)
    (t : list file_op) :
  console_accepts W ->
  closing_succeeds W ->
  is_return (main W args t).1 = true
  <-> is_Some (resolve_key W args)
      /\ is_return (open_csv W (input args)) = true
      /\ open_error W (output args) = None
      /\ writerow_error W header = None
      /\ (1 <= workers args)%Z.
Proof.
  intros Hquiet Hclose. rewrite main_cases by done.
  destruct (resolve_key W args) as [k|]; simpl.
  2: { split; [done|]. by intros [[? [=]] _]. }
  destruct (open_csv W (input args)) as [rows|e]; simpl.
  2: { split; [done|]. by intros (_ & [=] & _). }
  destruct (open_error W (output args)) as [e|]; simpl.
  { split; [done|]. by intros (_ & _ & [=] & _). }
  destruct (writerow_error W header) as [e|]; simpl.
  { split; [done|]. by intros (_ & _ & _ & [=] & _). }
  rewrite Hclose.
  destruct (Z.leb_spec (workers args) 0) as [Hle|Hlt]; simpl.
  - split; [done|]. intros (_ & _ & _ & _ & Hw). lia.
  - split; [|done]. intros _. repeat split; eauto. lia.
Qed.

Lemma main_returns_iff_witness :
  is_return (main (H := ascii_runtime) picky_world demo_args []).1 = true
  /\ is_return (main (H := ascii_runtime) picky_world no_workers_args []).1
     = false.
Proof.
  split.
  - apply (main_returns_iff (H := ascii_runtime) picky_world demo_args []).
    + intros message. reflexivity.
    + intros path rows. reflexivity.
    + repeat split; try reflexivity; [by eexists|vm_compute; discriminate].
  - apply not_true_is_false. intros Hreturn.
    apply (main_returns_iff (H := ascii_runtime) picky_world no_workers_args
             []) in Hreturn as (_ & _ & _ & _ & Hworkers).
    + vm_compute in Hworkers. by apply Hworkers.
    + intros message. reflexivity.
    + intros path rows. reflexivity.
Defined.

(** X8. The output file is left as it was exactly when no key is found, the
    input cannot be read, one of the three messages that come before the
    file is opened cannot be printed, or the output cannot be opened: these
    failures come before anything is written, every other run starts the
    file afresh. *)
Theorem main_output_untouched_iff `{Runtime} (W : World) (args : Args)
    (t : list file_op) :
  (main W args t).2 = t
  <-> resolve_key W args = None
      \/ is_Some (print_error W
                    (u "Reading Czech words from " ++ input args ++ u "..."))
      \/ is_return (open_csv W (input args)) = false
      \/ (exists rows,
            open_csv W (input args) = Return rows
            /\ is_Some (print_error W
                          (u "Found "
                           ++ str_N (N.of_nat
                                (length (dedup_first (first_columns rows))))
                           ++ u " words to translate")))
      \/ is_Some (print_error W
                    (u "Using " ++ str_Z (workers args)
                     ++ u " parallel workers"))
      \/ is_Some (open_error W (output args)).
Proof.
  rewrite main_setup. unfold message_reading, message_found, message_using.
  destruct (resolve_key W args) as [k|]; cbn [snd is_return];
    [|by split; [left|]].
  destruct (print_error W (u "Reading Czech words from " ++ _)) as [e|];
    cbn [snd is_return]; [by split; [right; left; eexists|]|].
  destruct (open_csv W (input args)) as [rows|e]; cbn [snd is_return];
    [|by split; [right; right; left|]].
  destruct (print_error W (u "Found " ++ _)) as [e|] eqn:Hfound;
    cbn [snd is_return].
  { split; [|done]. intros _. right. right. right. left.
    exists rows. split; [done|]. rewrite Hfound. by eexists. }
  destruct (print_error W (u "Using " ++ _)) as [e|]; cbn [snd is_return];
    [by split; [right; right; right; right; left; eexists|]|].
  destruct (open_error W (output args)) as [e|] eqn:Hout.
  { split; [by intros _; do 5 right; eexists|]. intros _.
    unfold after_setup, io_bind, with_open. by rewrite Hout. }
  split.
  - intros Heq.
    destruct (after_setup_session W args k (dedup_first (first_columns rows))
                t Hout) as (written & last & Hrun & _).
    rewrite Hrun in Heq. by apply app_eq_self in Heq.
  - intros [[=]|[[? [=]]|[[=]|[(rows' & [= <-] & Hsome)|[[? [=]]|[? [=]]]]]]].
    rewrite Hfound in Hsome. by destruct Hsome.
Qed.

(** X9. With a worker bound below one the pool cannot be built: when the
    console takes every message and the file closes, [main] raises the
    pool's [ValueError] after the header, no word is translated, and the
    file that is left holds the header alone. *)
Theorem main_without_workers `{Runtime} (W : World) (args : Args)
    (k : pystr) (rows : list (list pystr)) :
  console_accepts W ->
  closing_succeeds W ->
  resolve_key W args = Some k ->
  open_csv W (input args) = Return rows ->
  open_error W (output args) = None ->
  writerow_error W header = None ->
  (workers args <= 0)%Z ->
  main W args [] =
    (Raise pool_error, [Opened (output args); Wrote header; Closed])
  /\ persisted [Opened (output args); Wrote header; Closed] = [header].
Proof.
  intros Hquiet Hclose Hkey Hin Hout Hhead Hworkers. split; [|done].
  rewrite main_cases, Hkey, Hin, Hout, Hhead by done.
  destruct (Z.leb_spec (workers args) 0) as [_|Hlt]; [|lia].
  simpl. by rewrite Hclose.
Qed.

Lemma main_without_workers_witness :
  main (H := ascii_runtime) demo_world no_workers_args [] =
    (Raise pool_error,
     [Opened (output no_workers_args); Wrote header; Closed]).
Proof.
  apply (main_without_workers (H := ascii_runtime) demo_world no_workers_args
           (u "sk-flag") [[u "pes"]; [u "kočka"]; [u "pes"]]).
  - intros message. reflexivity.
  - intros path rows. reflexivity.
  - reflexivity.
  - reflexivity.
  - reflexivity.
  - reflexivity.
  - vm_compute. discriminate.
Defined.



(** X11. When the writer refuses the header, [main] raises that exception at
    once, the start-up messages having been printed: the output has been
    opened and is closed again, empty. *)
Theorem main_header_refused `{Runtime} (W : World) (args : Args)
    (k : pystr) (rows : list (list pystr)) (e : exn) :
  console_accepts W ->
  resolve_key W args = Some k ->
  open_csv W (input args) = Return rows ->
  open_error W (output args) = None ->
  writerow_error W header = Some e ->
  main W args [] = (Raise e, [Opened (output args); Closed])
  /\ persisted [Opened (output args); Closed] = [].
Proof.
  intros Hquiet Hkey Hin Hout Hhead. split; [|done].
  by rewrite main_cases, Hkey, Hin, Hout, Hhead by done.
Qed.

Lemma main_header_refused_witness :
  main (H := ascii_runtime)
    {| environ_key := None;
       open_csv := fun _ => Return [[u "pes"]];
       svc := demo_service;
       open_error := fun _ => None;
       writerow_error := fun _ => Some timeout;
       completion_order := [0%nat];
       print_error := fun _ => None;
       flush_error := fun _ _ => Some no_space |}
    no_workers_args []
  = (Raise timeout, [Opened (output no_workers_args); Closed]).
Proof.
  apply (main_header_refused (H := ascii_runtime) _ no_workers_args
           (u "sk-flag") [[u "pes"]] timeout); try reflexivity.
  intros message. reflexivity.
Defined.

(** X12. Whatever happens, [main] only adds to what was done to the output
    before, and what it adds is one whole session or nothing: the file is
    opened at most once, it is closed whenever it was opened (closing may
    end in an error), the header comes before any other row and every row
    has four cells. *)
Theorem main_file_session `{Runtime} (W : World) (args : Args)
    (t : list file_op) :
  exists ops,
    (main W args t).2 = t ++ ops /\ file_session (output args) ops.
Proof.
  assert (Hnothing : exists ops,
            t = t ++ ops /\ file_session (output args) ops).
  { exists []. split; [by rewrite app_nil_r|by left]. }
  rewrite main_setup.
  destruct (resolve_key W args) as [k|]; simpl; [|done].
  destruct (print_error W (message_reading (input args))); simpl; [done|].
  destruct (open_csv W (input args)) as [rows|e]; simpl; [|done].
  destruct (print_error W (message_found _)); simpl; [done|].
  destruct (print_error W (message_using _)); simpl; [done|].
  destruct (open_error W (output args)) as [e|] eqn:Hout.
  { unfold after_setup, mbind, io_mbind, io_bind, with_open.
    by rewrite Hout. }
  destruct (after_setup_session W args k (dedup_first (first_columns rows))
              t Hout) as (written & last & Hrun & Hlast & Hhead & Hlen).
  eexists. split; [exact Hrun|]. right. by exists written, last.
Qed.

(** X13. The key of a run is the one given on the command line unless that
    is missing or empty, and then the one of the environment; a key that is
    found is never the empty string. *)
Theorem resolve_key_flag_then_environment (W : World) (args : Args)
    (k : pystr) :
  resolve_key W args = Some k
  <-> k ≠ []
      /\ (key args = Some k
          \/ ((key args = None \/ key args = Some [])
              /\ environ_key W = Some k)).
Proof.
  unfold resolve_key. destruct (key args) as [[|c f]|]; simpl.
  - destruct (environ_key W) as [[|c e]|]; simpl; naive_solver.
  - split; [intros [= <-]; naive_solver|]. intros [_ [[= <-]|[[[=]|[=]] _]]].
    done.
  - destruct (environ_key W) as [[|c e]|]; simpl; naive_solver.
Qed.

(** X14. While the console takes every message, the loop over the completed
    futures never raises, whatever the futures do and whatever the writer
    refuses: it counts every future, and it adds to the file at most one
    row for each, the row of that future. *)
Theorem dispatch_loop_never_raises `{Runtime} (W : World) (fs : list future)
    (total completed_count : nat) (t : list file_op) :
  console_accepts W ->
  exists ops,
    for_each (process_future W total) completed_count fs t
      = (Return (completed_count + length fs)%nat, t ++ ops)
    /\ length ops <= length fs
    /\ Forall (fun op => exists f, f ∈ fs /\ op = Wrote (future_row f)) ops.
Proof.
  intros Hquiet.
  exists (map Wrote (accepted W (map future_row fs))).
  split; [|split].
  - by rewrite for_each_process_run, written_for_concat.
  - rewrite length_map. unfold accepted.
    pose proof (length_filter (fun row => writerow_error W row = None)
                  (map future_row fs)) as Hlen.
    by rewrite length_map in Hlen.
  - apply Forall_forall. intros op Hop.
    apply list_elem_of_fmap in Hop as (row & -> & Hrow).
    apply list_elem_of_filter in Hrow as [_ Hrow].
    apply list_elem_of_fmap in Hrow as (f & -> & Hf). by exists f.
Qed.

Lemma dispatch_loop_never_raises_witness :
  exists ops,
    for_each (process_future (H := ascii_runtime) picky_world 2) 0%nat
      [(u "kočka", Return (error_result (u "kočka") timeout));
       (u "pes", Raise timeout)] []
    = (Return 2%nat, ops)
    /\ length ops <= 2.
Proof.
  destruct (dispatch_loop_never_raises (H := ascii_runtime) picky_world
              [(u "kočka", Return (error_result (u "kočka") timeout));
               (u "pes", Raise timeout)] 2 0 [])
    as (ops & Hrun & Hlen & _).
  - intros message. reflexivity.
  - exists ops. split; [exact Hrun|exact Hlen].
Defined.

End MainPyFacts.

(** ** More about [read_anki.py] *)

Module ReadAnkiFacts.
Import Py ReadAnki ExtractorSpec ExtractorFacts ReadAnkiSpec.

Lemma lstrip_sublist s : lstrip s `sublist_of` s.
Proof.
  destruct (lstrip_split s) as (ws & Hs & _). rewrite Hs at 2.
  by apply sublist_inserts_l.
Qed.

Lemma take_while_sublist p s : take_while p s `sublist_of` s.
Proof.
  induction s as [|c s IH]; simpl; [done|].
  destruct (p c); [by apply sublist_skip|apply sublist_nil_l].
Qed.

Lemma first_token_sublist line : first_token line `sublist_of` line.
Proof.
  unfold first_token. etransitivity; [apply take_while_sublist|].
  apply lstrip_sublist.
Qed.

Lemma lstrip_app_nonblank line rest :
  blank line = false -> lstrip (line ++ rest) = lstrip line ++ rest.
Proof.
  unfold blank. induction line as [|c line IH]; simpl; [done|].
  destruct (isspace c); simpl; [apply IH|done].
Qed.

Lemma blank_app line rest :
  blank line = false -> blank (line ++ rest) = false.
Proof.
  unfold blank. induction line as [|c line IH]; simpl; [done|].
  destruct (isspace c); simpl; [apply IH|done].
Qed.

Lemma take_while_visible_app l ws rest :
  isspace ws = true ->
  take_while visible (l ++ ws :: rest) = take_while visible l.
Proof.
  intros Hws. induction l as [|c l IH]; simpl.
  - unfold visible. by rewrite Hws.
  - by rewrite IH.
Qed.

Lemma first_token_app line ws rest :
  blank line = false -> isspace ws = true ->
  first_token (line ++ ws :: rest) = first_token line.
Proof.
  intros Hblank Hws. unfold first_token.
  rewrite lstrip_app_nonblank by done. by apply take_while_visible_app.
Qed.

Lemma filter_nil_Forall {A} (P : A -> Prop) `{!forall x, Decision (P x)}
    (l : list A) :
  filter P l = [] <-> Forall (fun x => ~ P x) l.
Proof.
  induction l as [|x l IH]; [by split; [constructor|]|].
  rewrite filter_cons, Forall_cons. destruct (decide (P x)); [|naive_solver].
  split; [done|]. by intros [? _].
Qed.

Lemma lstrip_visible_cons c s :
  isspace c = false -> lstrip (c :: s) = c :: s.
Proof. intros Hc. simpl. by rewrite Hc. Qed.

Lemma take_while_visible_line c :
  Forall (fun x => isspace x = false) c ->
  take_while visible (c ++ [10%N]) = c.
Proof.
  induction 1 as [|x c Hx _ IH]; simpl; [done|].
  unfold visible at 1. rewrite Hx. simpl. by rewrite IH.
Qed.

Lemma without_clean set c :
  Forall (fun x => x ∉ set) c -> without set c = c.
Proof.
  unfold without. induction 1 as [|x c Hx _ IH]; [done|].
  rewrite filter_cons, decide_True by done. by rewrite IH.
Qed.

(** A cell that has already been cleaned, written on a line of its own. *)
Lemma clean_cell_again c :
  Forall (fun x => isspace x = false) c ->
  Forall (fun x => x ∉ ascii_quotes) c ->
  blank (c ++ [10%N]) = match c with [] => true | _ => false end
  /\ without ascii_quotes (first_token (c ++ [10%N])) = c.
Proof.
  intros Hvis Hquote. destruct c as [|x c]; [done|].
  pose proof (Forall_inv Hvis) as Hx. simpl in Hx. split.
  - unfold blank. simpl. by rewrite Hx.
  - unfold first_token. rewrite <- app_comm_cons.
    rewrite lstrip_visible_cons by done. rewrite app_comm_cons.
    rewrite take_while_visible_line by done. by apply without_clean.
Qed.

Lemma extract_first_words_inv W input_file output_file lines path rows :
  read_lines W input_file = Return lines ->
  extract_first_words W input_file output_file = Finished path rows ->
  rows = expected_rows ascii_quotes lines.
Proof.
  intros Hread Hrun. unfold extract_first_words in Hrun.
  rewrite Hread in Hrun. simpl in Hrun. rewrite read_loop_run in Hrun.
  simpl in Hrun. destruct (write_error W _); [discriminate|].
  injection Hrun as _ <-. unfold expected_rows. by rewrite map_map.
Qed.

Lemma cells_expected_rows_clean lines :
  Forall (fun c => Forall (fun x => isspace x = false) c
                   /\ Forall (fun x => x ∉ ascii_quotes) c)
    (cells (expected_rows ascii_quotes lines)).
Proof.
  unfold cells, expected_rows.
  induction (filter (fun line => blank line = false) lines)
    as [|line ls IH]; simpl; [constructor|].
  constructor; [|exact IH]. split.
  - apply without_visible, take_while_visible.
  - apply Forall_forall. intros x Hx.
    by apply list_elem_of_filter in Hx as [Hx _].
Qed.

(** X16. A file that can be read gives no row at all exactly when every one
    of its lines is blank; the output is written all the same, empty. *)
Theorem no_rows_iff_blank (W : World) (input_file : pystr)
    (output_file : option pystr) (lines : list pystr) :
  read_lines W input_file = Return lines ->
  write_error W (default default_output output_file) = None ->
  extract_first_words W input_file output_file
    = Finished (default default_output output_file) []
  <-> Forall (fun line => blank line = true) lines.
Proof.
  intros Hread Hwrite.
  rewrite (extract_first_words_run W _ _ _ Hread Hwrite).
  unfold expected_rows. split.
  - intros [= Hrows]. apply fmap_nil_inv in Hrows.
    apply filter_nil_Forall in Hrows.
    eapply Forall_impl; [exact Hrows|]. intros line Hline. simpl in Hline.
    by destruct (blank line).
  - intros Hblank. f_equal.
    replace (filter (fun line => blank line = false) lines) with (@nil pystr);
      [done|].
    symmetry. apply filter_nil_Forall.
    eapply Forall_impl; [exact Hblank|]. intros line Hline. simpl.
    by rewrite Hline.
Qed.

Lemma no_rows_iff_blank_witness :
  extract_first_words (holding [u "  " ++ [10%N]; [10%N]; []])
    (u "deck.txt") None
  = Finished default_output [].
Proof.
  apply (no_rows_iff_blank (holding [u "  " ++ [10%N]; [10%N]; []])
           (u "deck.txt") None [u "  " ++ [10%N]; [10%N]; []]
           eq_refl eq_refl).
  repeat constructor.
Defined.

(** X17. Every row comes from a line of the file that is not blank: its one
    cell is made of characters of that line, in their order, and holds no
    whitespace at all. *)
Theorem cells_come_from_lines (W : World) (input_file : pystr)
    (output_file : option pystr) (lines : list pystr) (path : pystr)
    (rows : list (list pystr)) :
  read_lines W input_file = Return lines ->
  extract_first_words W input_file output_file = Finished path rows ->
  Forall (fun row =>
            exists cell line,
              row = [cell] /\ line ∈ lines /\ blank line = false
              /\ cell `sublist_of` line
              /\ Forall (fun c => isspace c = false) cell) rows.
Proof.
  intros Hread Hrun.
  rewrite (extract_first_words_inv _ _ _ _ _ _ Hread Hrun).
  unfold expected_rows. apply Forall_forall. intros row Hrow.
  apply list_elem_of_fmap in Hrow as (line & -> & Hline).
  apply list_elem_of_filter in Hline as [Hblank Hline].
  eexists _, line. split; [done|]. split; [done|]. split; [done|]. split.
  - etransitivity; [apply sublist_filter|]. apply first_token_sublist.
  - apply without_visible, take_while_visible.
Qed.

Lemma cells_come_from_lines_witness :
  Forall (fun row =>
            exists cell line,
              row = [cell] /\ line ∈ quoted_lines /\ blank line = false
              /\ cell `sublist_of` line
              /\ Forall (fun c => isspace c = false) cell)
    [[u "itsx"]; [[]]].
Proof.
  apply (cells_come_from_lines (holding quoted_lines) (u "deck.txt") None
           quoted_lines default_output [[u "itsx"]; [[]]] eq_refl).
  vm_compute. reflexivity.
Defined.

(** X18. What stands after the first token of a line has no effect on its
    row: a line that is not blank gives the same row whatever is added to it
    behind a whitespace character. *)
Theorem text_after_first_token_ignored (first_words : list pystr)
    (line rest : pystr) (ws : N) :
  blank line = false ->
  isspace ws = true ->
  add_line first_words (line ++ ws :: rest) = add_line first_words line.
Proof.
  intros Hblank Hws. rewrite !add_line_run.
  rewrite (blank_app line (ws :: rest) Hblank), Hblank.
  by rewrite first_token_app.
Qed.

Lemma text_after_first_token_ignored_witness :
  add_line [] (u "Ahoj" ++ 32%N :: u "world, again")
  = add_line [] (u "Ahoj").
Proof.
  apply (text_after_first_token_ignored [] (u "Ahoj") (u "world, again")
           32%N); reflexivity.
Defined.

(** X19. Extraction settles after one pass: when the cells it has produced
    are put one to a line and extracted again, every cell that is not empty
    comes back as it is, and the empty ones make blank lines and drop out. *)
Theorem extraction_settles (W W' : World) (input_file input_file' : pystr)
    (output_file output_file' : option pystr) (lines : list pystr)
    (path : pystr) (rows : list (list pystr)) :
  read_lines W input_file = Return lines ->
  extract_first_words W input_file output_file = Finished path rows ->
  read_lines W' input_file' = Return (as_lines (cells rows)) ->
  write_error W' (default default_output output_file') = None ->
  extract_first_words W' input_file' output_file'
    = Finished (default default_output output_file')
        (map (fun c => [c]) (filter (fun c => c ≠ []) (cells rows))).
Proof.
  intros Hread Hrun Hread' Hwrite'.
  rewrite (extract_first_words_run W' _ _ _ Hread' Hwrite'). f_equal.
  rewrite (extract_first_words_inv _ _ _ _ _ _ Hread Hrun).
  clear Hread Hrun Hread' Hwrite'.
  pose proof (cells_expected_rows_clean lines) as Hclean. revert Hclean.
  generalize (cells (expected_rows ascii_quotes lines)). intros cs Hclean.
  unfold expected_rows, as_lines.
  induction Hclean as [|c cs [Hvis Hquote] _ IH]; simpl; [done|].
  destruct (clean_cell_again c Hvis Hquote) as [Hblank Hcell].
  rewrite !filter_cons.
  destruct c as [|x c].
  - rewrite decide_False by (by rewrite Hblank).
    by rewrite decide_False by (intros Hn; by apply Hn).
  - rewrite decide_True by done. rewrite decide_True by done.
    simpl. rewrite IH. f_equal. f_equal. exact Hcell.
Qed.

Lemma extraction_settles_witness :
  extract_first_words (holding (as_lines [u "itsx"; []])) (u "result.csv")
    (Some (u "again.csv"))
  = Finished (u "again.csv") [[u "itsx"]].
Proof.
  apply (extraction_settles (holding quoted_lines)
           (holding (as_lines [u "itsx"; []]))
           (u "deck.txt") (u "result.csv") None (Some (u "again.csv"))
           quoted_lines default_output [[u "itsx"]; [[]]]).
  - reflexivity.
  - vm_compute. reflexivity.
  - reflexivity.
  - reflexivity.
Defined.

(** X21. Lines are handled one after the other and independently: the
    words collected from two runs of lines read in a row are those of the
    first run followed by those of the second. *)
Theorem read_loop_app (first_words : list pystr) (lines more : list pystr) :
  read_loop first_words (lines ++ more)
  = (collected ← read_loop first_words lines; read_loop collected more)
  /\ exists from_lines from_more,
       read_loop [] lines = Return from_lines
       /\ read_loop [] more = Return from_more
       /\ read_loop first_words (lines ++ more)
          = Return (first_words ++ from_lines ++ from_more).
Proof.
  split.
  - revert first_words. induction lines as [|line lines IH];
      intros first_words; simpl; [done|].
    rewrite add_line_run. simpl. apply IH.
  - eexists _, _. rewrite !read_loop_run. split; [done|]. split; [done|].
    by rewrite filter_app, map_app.
Qed.

End ReadAnkiFacts.
